(** * Envelope generator and voice engines of the synthesizer core

    A shallow embedding of [audio/Envelop.h], of the note handling of
    [plugins/audio/MultiEngine/ChordEngine.h] and of the pitch set-up of
    [plugins/audio/MultiEngine/Wavetable2Engine.h], followed by the
    properties of the specification that were checked against them. *)

From Stdlib Require Import ZArith QArith Lia List Bool.
From Stdlib.Strings Require Import Byte.
From Stdlib Require String DecimalString.
From stdpp Require Import base list.

Local Open Scope Z_scope.

(** ** Machine integers

    [unsigned int] is 32 bits wide, [int] is its two's complement
    counterpart, [size_t] is 64 bits wide. *)

Definition uint (x : Z) : Z := x mod 2 ^ 32.
Definition sint (x : Z) : Z := (x + 2 ^ 31) mod 2 ^ 32 - 2 ^ 31.
Definition size_t (x : Z) : Z := x mod 2 ^ 64.

(** ** Single precision arithmetic

    The sources compute in [float].  The embedding is written over an
    interface of the operations they use, so that the control flow can be
    studied for any implementation of them. *)

Class FloatOps (F : Type) := {
  f_lit : Q -> F;                (* a literal such as [0.7f] *)
  f_of_Z : Z -> F;               (* [(float)n] *)
  fadd : F -> F -> F;
  fsub : F -> F -> F;
  fmul : F -> F -> F;
  fdiv : F -> F -> F;
  feqb : F -> F -> bool;         (* [x == y] *)
  fltb : F -> F -> bool;         (* [x < y] *)
  f_to_int : F -> Z              (* [(int)x], truncation toward zero *)
}.

(** *** The binary32 instance

    Finite IEEE 754 single precision numbers are the rationals [m * 2^s]
    with [|m| < 2^24] and [-149 <= s]; every operation is the exact one
    followed by rounding to nearest, ties to even.  Infinities, NaN and
    the sign of zero are not represented: the instance is meant for
    values far from the ends of the range and for divisors other than
    zero (a quotient by zero is 0 here). *)

Definition Qpow2 (s : Z) : Q :=
  if 0 <=? s then inject_Z (2 ^ s) else 1 # Z.to_pos (2 ^ (- s)).

Definition round_half_even (n : Z) (d : Z) : Z :=
  let q := n / d in
  match (2 * (n mod d)) ?= d with
  | Lt => q
  | Gt => q + 1
  | Eq => if Z.even q then q else q + 1
  end.

Definition binade (n : Z) (d : positive) : Z :=
  let e0 := Z.log2 n - Z.log2 (Z.pos d) in
  if Qle_bool (Qpow2 e0) (n # d) then e0 else e0 - 1.

Definition round32 (q : Q) : Q :=
  let n := Z.abs (Qnum q) in
  let d := Qden q in
  if n =? 0 then 0%Q
  else
    let s := Z.max (binade n d - 23) (-149) in
    let m := if 0 <=? s then round_half_even n (Z.pos d * 2 ^ s)
             else round_half_even (n * 2 ^ (- s)) (Z.pos d) in
    Qred (inject_Z (Z.sgn (Qnum q) * m) * Qpow2 s).

Definition Qtrunc (q : Q) : Z := Z.quot (Qnum q) (Z.pos (Qden q)).

#[export] Instance binary32 : FloatOps Q := {
  f_lit q := round32 q;
  f_of_Z n := round32 (inject_Z n);
  fadd x y := round32 (x + y);
  fsub x y := round32 (x - y);
  fmul x y := round32 (x * y);
  fdiv x y := round32 (x / y);
  feqb x y := Qeq_bool x y;
  fltb x y := negb (Qle_bool y x);
  f_to_int q := Qtrunc q
}.

(** ** [audio/Envelop.h] *)

Module Envelop.

(** The outcome of a call: a value, a read outside the stage table
    (undefined behaviour in the source), or a loop cut short by the
    embedding's iteration bound. *)
Inductive Res (A : Type) : Type :=
  | Ok (a : A)
  | OutOfBounds
  | OutOfFuel.
Arguments Ok {A} a.
Arguments OutOfBounds {A}.
Arguments OutOfFuel {A}.

(** The two counters every method receives by reference; the methods
    without arguments pass the object's own [sampleCount] and [index]. *)
Record Cursor : Type := mkCursor { sampleCountRef : Z; indexRef : Z }.

Definition M (A : Type) : Type := Cursor -> Res A * Cursor.

#[export] Instance M_ret : MRet M := fun A a c => (Ok a, c).

#[export] Instance M_bind : MBind M := fun A B f m c =>
  match m c with
  | (Ok a, c') => f a c'
  | (OutOfBounds, c') => (OutOfBounds, c')
  | (OutOfFuel, c') => (OutOfFuel, c')
  end.

Definition get_sampleCountRef : M Z := fun c => (Ok (sampleCountRef c), c).
Definition get_indexRef : M Z := fun c => (Ok (indexRef c), c).
Definition set_sampleCountRef (x : Z) : M unit :=
  fun c => (Ok tt, mkCursor x (indexRef c)).
Definition set_indexRef (x : Z) : M unit :=
  fun c => (Ok tt, mkCursor (sampleCountRef c) x).
Definition out_of_bounds {A} : M A := fun c => (OutOfBounds, c).
Definition out_of_fuel {A} : M A := fun c => (OutOfFuel, c).

Section WithFloat.
Context {F : Type} `{FloatOps F}.

Record Data : Type := mkData { modulation : F; sampleCount : Z }.

(** The stage at position [i] of the table, if there is one. *)
Definition stage (data : list Data) (i : Z) : option Data :=
  if i <? 0 then None else data !! Z.to_nat i.

(** [data[i]]: [std::vector::operator[]] does no bounds check. *)
Definition at_ (data : list Data) (i : Z) : M Data :=
  match stage data i with
  | Some d => mret d
  | None => out_of_bounds
  end.

(** [data.size() - 1] in [size_t]: a vector holds fewer than [2^64]
    elements, so only the subtraction can wrap, on the empty vector. *)
Definition size_minus_1 (data : list Data) : Z :=
  if Z.of_nat (length data) =? 0 then 2 ^ 64 - 1
  else Z.of_nat (length data) - 1.

Definition setNextPhase : M unit :=
  set_sampleCountRef 0;;
  i ← get_indexRef;
  set_indexRef (uint (i + 1)).

(** [data[indexRef].sampleCount == 0.0f]: the unsigned count converted to
    [float] is zero exactly when the count is. *)
Definition isSustain (data : list Data) (i : Z) : M bool :=
  d ← at_ data i;
  mret (sampleCount d =? 0).

(** Lines 80 and 81 of the source, shared by [next] and [peek]. *)
Definition env (data : list Data) (sc i : Z) : M F :=
  d ← at_ data i;
  let timeRatio := fdiv (f_of_Z sc) (f_of_Z (sampleCount d)) in
  d1 ← at_ data (uint (i + 1));
  mret (fadd (fmul (fsub (modulation d1) (modulation d)) timeRatio)
             (modulation d)).

Definition next (data : list Data) : M F :=
  sc ← get_sampleCountRef;
  set_sampleCountRef (uint (sc + 1));;
  i ← get_indexRef;
  if size_minus_1 data <=? i then mret (f_lit 0)
  else
    s ← isSustain data i;
    if s : bool then d ← at_ data i; mret (modulation d)
    else
      d ← at_ data i;
      sc ← get_sampleCountRef;
      early ← (if sampleCount d <=? sc then
                 setNextPhase;;
                 i ← get_indexRef;
                 s ← isSustain data i;
                 if s : bool then d ← at_ data i; mret (Some (modulation d))
                 else mret None
               else mret None);
      match early with
      | Some v => mret v
      | None =>
          sc ← get_sampleCountRef;
          i ← get_indexRef;
          env data sc i
      end.

(** The loop [for (int i = indexRef; i < data.size() - 1; i++)] of
    [release].  The counter is an [int]: it is compared as a [size_t] and
    passed on as an [unsigned int]; [i++] wraps in the embedding where the
    source overflows.  There is no [break].  For a table of at most
    [2^31] stages [length data] iterations are enough. *)
Fixpoint release_loop (data : list Data) (fuel : nat) (i : Z) : M unit :=
  if size_t i <? size_minus_1 data then
    match fuel with
    | O => out_of_fuel
    | S fuel =>
        s ← isSustain data (uint i);
        (if s : bool then set_indexRef (uint i);; setNextPhase
         else mret tt);;
        release_loop data fuel (sint (i + 1))
    end
  else mret tt.

Definition release (data : list Data) : M unit :=
  i ← get_indexRef;
  s ← isSustain data i;
  if s : bool then setNextPhase
  else release_loop data (length data) (sint i).

Definition reset : M unit :=
  set_indexRef 0;;
  set_sampleCountRef 0.

(** Return current envelope value without advancing state. *)
Definition peek (data : list Data) : M F :=
  i ← get_indexRef;
  if size_minus_1 data <=? i then mret (f_lit 0)
  else
    s ← isSustain data i;
    if s : bool then d ← at_ data i; mret (modulation d)
    else
      sc ← get_sampleCountRef;
      d ← at_ data i;
      if sampleCount d <=? sc then
        if uint (i + 1) <? Z.of_nat (length data) then
          d1 ← at_ data (uint (i + 1)); mret (modulation d1)
        else mret (f_lit 0)
      else env data sc i.

Definition isSilent (data : list Data) : M bool :=
  i ← get_indexRef;
  mret (size_minus_1 data <=? i).

(** The constructor copies the table and checks nothing; the counters
    start at zero.  [ConfigError] is the outcome a validating
    constructor would have. *)
Record Object : Type := mkObject { data : list Data; cursor : Cursor }.

Inductive Construction : Type :=
  | Built (e : Object)
  | ConfigError.

Definition Envelop (table : list Data) : Construction :=
  Built (mkObject table (mkCursor 0 0)).

End WithFloat.
Arguments Data F : clear implicits.
Arguments Object F : clear implicits.
Arguments Construction F : clear implicits.

End Envelop.

(** ** What the engines use from headers that are not among the sources *)

(** Modelled from the spec: the [CLAMP] macro of [helpers/math.h]
    ("out-of-range selections are clamped to valid bounds rather than
    rejected"): a value below the lower bound becomes the lower bound, a
    value above the upper bound becomes the upper bound. *)
Definition CLAMP {A : Type} (ltb : A -> A -> bool) (x lo hi : A) : A :=
  if ltb x lo then lo else if ltb hi x then hi else x.

(** The base class [Engine] of [plugins/audio/MultiEngine/Engine.h]: the
    amplitude envelope and the base frequency live there.  [B] is its
    state. *)
Class EngineBase (F B : Type) := {
  Engine_noteOn : byte -> F -> B -> B;
  Engine_noteOff : byte -> F -> B -> B;
  setBaseFreq : F -> option byte -> B -> B;   (* [setBaseFreq(body[, note])] *)
  baseFreq : B -> F;
  envelopAmp_get : B -> F                     (* [envelopAmp.get()] *)
}.

(** A [uint8_t] note as an [int]. *)
Definition note_int (note : byte) : Z := Z.of_N (Byte.to_N note).

(** ** [plugins/audio/MultiEngine/ChordEngine.h] *)

Module ChordEngine.

Definition VOICES : Z := 4.

(** chord definitions: semitone offsets per voice (4 voices) *)
Definition chordDefs : list (list Z) :=
  [ [0; 4; 7; 12];    (* Major *)
    [0; 3; 7; 12];    (* Minor *)
    [0; 5; 7; 12];    (* Sus4 *)
    [0; 7; 12; 19];   (* Power *)
    [0; 4; 7; 11];    (* Maj7 *)
    [0; 3; 7; 10] ].  (* Min7 *)

Inductive ChordType : Type := Major | Minor | Sus4 | Power | Maj7 | Min7.

Definition ChordType_int (c : ChordType) : Z :=
  match c with
  | Major => 0 | Minor => 1 | Sus4 => 2 | Power => 3 | Maj7 => 4 | Min7 => 5
  end.

Section WithFloat.
Context {F B : Type} `{FloatOps F} `{EngineBase F B}.
Variable powf : F -> F -> F.            (* libm *)
Variable rand : Z -> Z * Z.             (* [rand()]: value and next seed *)
Variable RAND_MAX : Z.

Record State : Type := mkState {
  base : B;
  phases : list F;
  currentFreq : list F;
  targetFreq : list F;
  lastNote : byte;
  heldNotes : Z;
  glideSpeed : F;
  glideEnabled : bool;
  velocity : F;
  cachedNumVoices : Z;
  body : F;                             (* [body.get()] *)
  chordType : F;                        (* [chordType.get()] *)
  seed : Z
}.

(** The body of the loop over the voices in [noteOn]. *)
Definition setVoice (shouldGlide : bool) (offsets : list Z)
    (s : State) (v : Z) : State :=
  if v <? cachedNumVoices s then
    let target :=
      fmul (baseFreq (base s))
           (powf (f_lit 2) (fdiv (f_of_Z (offsets !!! Z.to_nat v)) (f_lit 12))) in
    let snap :=
      negb shouldGlide
      || feqb (default (f_lit 0) (currentFreq s !! Z.to_nat v)) (f_lit 0) in
    let r := rand (seed s) in
    mkState (base s)
      (if snap
       then <[Z.to_nat v := fdiv (f_of_Z (fst r)) (f_of_Z RAND_MAX)]> (phases s)
       else phases s)
      (if snap then <[Z.to_nat v := target]> (currentFreq s)
       else currentFreq s)
      (<[Z.to_nat v := target]> (targetFreq s))
      (lastNote s) (heldNotes s) (glideSpeed s) (glideEnabled s) (velocity s)
      (cachedNumVoices s) (body s) (chordType s)
      (if snap then snd r else seed s)
  else s.

Definition with_base (b : B) (s : State) : State :=
  mkState b (phases s) (currentFreq s) (targetFreq s) (lastNote s)
    (heldNotes s) (glideSpeed s) (glideEnabled s) (velocity s)
    (cachedNumVoices s) (body s) (chordType s) (seed s).

Definition with_velocity (x : F) (s : State) : State :=
  mkState (base s) (phases s) (currentFreq s) (targetFreq s) (lastNote s)
    (heldNotes s) (glideSpeed s) (glideEnabled s) x
    (cachedNumVoices s) (body s) (chordType s) (seed s).

Definition with_note (note : byte) (held : Z) (s : State) : State :=
  mkState (base s) (phases s) (currentFreq s) (targetFreq s) note
    held (glideSpeed s) (glideEnabled s) (velocity s)
    (cachedNumVoices s) (body s) (chordType s) (seed s).

Definition noteOn (note : byte) (_velocity : F) (s : State) : State :=
  let s := with_velocity _velocity s in
  (* Glide if enabled AND envelope is still active *)
  let shouldGlide :=
    glideEnabled s
    && negb (Byte.eqb note (lastNote s))
    && fltb (f_lit (1 # 100)) (envelopAmp_get (base s)) in
  let s :=
    if negb shouldGlide then with_base (Engine_noteOn note _velocity (base s)) s
    else s in
  let s := with_base (setBaseFreq (body s) (Some note) (base s)) s in
  let ctype := f_to_int (chordType s) in
  let offsets :=
    chordDefs !!! Z.to_nat (CLAMP Z.ltb ctype 0 (Z.of_nat (length chordDefs) - 1)) in
  let s := fold_left (setVoice shouldGlide offsets) [0; 1; 2; 3] s in
  with_note note (sint (heldNotes s + 1)) s.

Definition noteOff (note : byte) (_velocity : F) (s : State) : State :=
  (* Decrement held note count *)
  let s :=
    if 0 <? heldNotes s then with_note (lastNote s) (sint (heldNotes s - 1)) s
    else s in
  (* Release envelope only when ALL notes are released *)
  if heldNotes s =? 0 then with_base (Engine_noteOff note _velocity (base s)) s
  else s.

End WithFloat.
Arguments State F B : clear implicits.

End ChordEngine.

(** ** [plugins/audio/MultiEngine/Wavetable2Engine.h] *)

Module Wavetable2Engine.

Definition baseNote : Z := 60.

Section WithFloat.
Context {F B : Type} `{FloatOps F} `{EngineBase F B}.
Variable pow : F -> F -> F.             (* libm *)
Variable wavetable_sampleCount : Z.     (* [wavetable.sampleCount] *)
Variable sampleRate : Z.                (* [props.sampleRate] *)

Definition middleCFreq : F := f_lit (26163 # 100).

Record State : Type := mkState {
  base : B;
  velocity : F;
  sampleIndexLfo : F;
  antiAliasCutoff : F;
  antiAliasFilter : F;                  (* the cutoff handed to the filter *)
  freq : F;
  freqNote : byte;
  picth : F;                            (* [picth.get()] *)
  wavetable_sampleIndex : F;
  envPitch : option F                   (* argument of the last [reset] *)
}.

Definition setFreq (note : byte) (s : State) : State :=
  let note := if Byte.eqb note x00 then freqNote s else note in
  (* Calculate target frequency in Hz *)
  let targetFreq :=
    fmul middleCFreq
      (pow (f_lit 2)
           (fdiv (fadd (f_of_Z (note_int note - baseNote)) (picth s))
                 (f_lit 12))) in
  (* Convert to sample increment based on actual wavetable size *)
  let freq' :=
    fdiv (fmul targetFreq (f_of_Z wavetable_sampleCount)) (f_of_Z sampleRate) in
  (* Anti-aliasing: reduce high frequencies for higher notes *)
  let noteRatio := fdiv (f_of_Z (note_int note - 36)) (f_lit 60) in
  let cutoff := fsub (f_lit 1) (fmul noteRatio (f_lit (7 # 10))) in
  let cutoff := CLAMP fltb cutoff (f_lit (15 # 100)) (f_lit 1) in
  mkState (base s) (velocity s) (sampleIndexLfo s) cutoff cutoff freq' note
    (picth s) (wavetable_sampleIndex s) (envPitch s).

(** The change callback of the pitch parameter: [setFreq()] with the
    default argument. *)
Definition picth_changed (value : F) (s : State) : State :=
  setFreq x00
    (mkState (base s) (velocity s) (sampleIndexLfo s) (antiAliasCutoff s)
       (antiAliasFilter s) (freq s) (freqNote s) value
       (wavetable_sampleIndex s) (envPitch s)).

Definition noteOn (note : byte) (_velocity : F) (s : State) : State :=
  let s := mkState (Engine_noteOn note _velocity (base s)) _velocity
             (sampleIndexLfo s) (antiAliasCutoff s) (antiAliasFilter s)
             (freq s) (freqNote s) (picth s) (wavetable_sampleIndex s)
             (envPitch s) in
  let s := setFreq note s in
  mkState (base s) (velocity s) (f_lit 0) (antiAliasCutoff s)
    (antiAliasFilter s) (freq s) (freqNote s) (picth s) (f_lit 0)
    (Some (fmul (f_of_Z sampleRate) (f_lit (15 # 100)))).

End WithFloat.
Arguments State F B : clear implicits.

End Wavetable2Engine.

(** ** The statements of the specification about the envelope generator *)

Module EnvelopSpec.
Import Envelop.

Section WithFloat.
Context {F : Type} `{FloatOps F}.
Implicit Types (data : list (Data F)) (c : Cursor).

(** The interpolation rule of the specification, within stage [a] toward
    the target of stage [b] at local sample count [t]:
    [m[i] + (m[i+1] - m[i]) * (t / d[i])].  The source adds [m[i]] last. *)
Definition level (a b : Data F) (t : Z) : F :=
  fadd (fmul (fsub (modulation b) (modulation a))
             (fdiv (f_of_Z t) (f_of_Z (sampleCount a))))
       (modulation a).

(** The rule at position [i] of a table; it has no value when the table
    has no stage [i] or no stage after it. *)
Definition interpolation data (i t : Z) : Res F :=
  match stage data i, stage data (uint (i + 1)) with
  | Some a, Some b => Ok (level a b t)
  | _, _ => OutOfBounds
  end.

(** Stage [j] exists and has duration 0. *)
Definition is_sustain data (j : Z) : bool :=
  match stage data j with
  | Some d => sampleCount d =? 0
  | None => false
  end.

Definition last_index data : Z := Z.of_nat (length data) - 1.

(** The cursor invariant of the data model. *)
Definition cursor_ok data c : Prop :=
  0 <= indexRef c < Z.of_nat (length data).

(** [release()] as the specification words it: from a sustain stage one
    stage further; otherwise past the first sustain stage at or after the
    current index and before the terminal stage; without such a stage
    nothing changes. *)
Definition release_past_first_sustain data c : Prop :=
  (is_sustain data (indexRef c) = true ->
   release data c = (Ok tt, mkCursor 0 (indexRef c + 1)))
  /\ (is_sustain data (indexRef c) = false ->
      (forall j,
          indexRef c <= j < last_index data ->
          is_sustain data j = true ->
          (forall k, indexRef c <= k < j -> is_sustain data k = false) ->
          release data c = (Ok tt, mkCursor 0 (j + 1)))
      /\ ((forall k, indexRef c <= k < last_index data ->
                     is_sustain data k = false) ->
          release data c = (Ok tt, c))).

(** [peek()] as the specification words it: the value of the next call
    to [next()], the cursor untouched. *)
Definition peek_is_next_value data c : Prop :=
  fst (peek data c) = fst (next data c) /\ snd (peek data c) = c.

(** "[reset()] makes the very next [next()] return the first stage's
    value", for a first stage that is not a sustain stage. *)
Definition first_next_after_reset_is_first_value data : Prop :=
  forall a c,
    stage data 0 = Some a -> sampleCount a <> 0 ->
    fst (next data (snd (reset c))) = Ok (modulation a).

(** "A table with fewer than 2 stages is a configuration error, reported
    at construction." *)
Definition short_table_rejected (table : list (Data F)) : Prop :=
  (length table < 2)%nat -> Envelop table = ConfigError.

End WithFloat.
End EnvelopSpec.

(** ** Stage tables used as concrete inputs, in binary32 arithmetic *)

Module Tables.
Import Envelop.

Definition D (m : Q) (n : Z) : Data Q := mkData (f_lit m) n.

(** attack over 4 samples, hold at 1, silence *)
Definition attack_hold : list (Data Q) := [D 0 4; D 1 0; D 0 0].

(** two ramps of 2 samples and a last stage with a duration of its own *)
Definition up_down : list (Data Q) := [D 0 2; D 1 2; D 0 2].

(** one ramp of 2 samples into a last stage with a duration of its own *)
Definition ramp_pair : list (Data Q) := [D 0 2; D 1 2].

(** two hold stages on the way down *)
Definition two_holds : list (Data Q) :=
  [D 0 5; D 1 0; D (1 # 2) 5; D (1 # 4) 0; D 0 5; D 0 0].

End Tables.

(** ** Sequences of note events on the chord engine *)

Module ChordSpec.
Import ChordEngine.

Section WithFloat.
Context {F B : Type} `{FloatOps F} `{EngineBase F B}.
Variable powf : F -> F -> F.
Variable rand : Z -> Z * Z.
Variable RAND_MAX : Z.

(** [noteOn] for each event of the list, in order. *)
Definition noteOns (events : list (byte * F)) (s : State F B) : State F B :=
  fold_left (fun s e => noteOn powf rand RAND_MAX (fst e) (snd e) s) events s.

(** [noteOff] for each event of the list, in order. *)
Definition noteOffs (events : list (byte * F)) (s : State F B) : State F B :=
  fold_left (fun s e => noteOff (fst e) (snd e) s) events s.

(** [2^(k/12)] as the source computes it. *)
Definition semitones (k : Z) : F :=
  powf (f_lit 2) (fdiv (f_of_Z k) (f_lit 12)).

End WithFloat.
End ChordSpec.

(** ** The anti-alias cutoff as a function of the note number *)

Module WavetableSpec.

Section WithFloat.
Context {F : Type} `{FloatOps F}.

(** The cutoff before clamping: [1.0f - ((note - 36) / 60.0f) * 0.7f]. *)
Definition raw_cutoff (n : Z) : F :=
  fsub (f_lit 1) (fmul (fdiv (f_of_Z (n - 36)) (f_lit 60)) (f_lit (7 # 10))).

(** Lines 63 to 65 of the source at note number [n]. *)
Definition cutoff_of_note (n : Z) : F :=
  CLAMP fltb (raw_cutoff n) (f_lit (15 # 100)) (f_lit 1).

End WithFloat.

(** What the specification says of the cutoff at note number [n]. *)
Definition cutoff_facts (n : Z) : Prop :=
  (f_lit (15 # 100) <= cutoff_of_note n <= f_lit 1)%Q
  /\ (cutoff_of_note (n + 1) <= cutoff_of_note n)%Q
  /\ (n <= 36 -> cutoff_of_note n = f_lit 1)
  /\ (n = 96 -> cutoff_of_note n = f_lit (3 # 10))
  /\ (36 <= n <= 108 -> cutoff_of_note n = raw_cutoff n).

End WavetableSpec.

(** ** Stand-ins for running the engines on concrete inputs

    The base engine, [powf] and [rand] are not among the sources.  These
    stand-ins make the embedding executable; no general statement below
    depends on them. *)

Module Standins.

Inductive Call : Type :=
  | CallNoteOn (note : byte) (velocity : Q)
  | CallNoteOff (note : byte) (velocity : Q)
  | CallSetBaseFreq (body : Q) (note : option byte).

(** A base engine that records the calls it receives.  Its amplitude is 1
    after a note-on and 0 after a note-off, its base frequency is the
    number of the note. *)
Record Recorder : Type := mkRecorder {
  calls : list Call;
  frequency : Q;
  amplitude : Q
}.

#[export] Instance recorder : EngineBase Q Recorder := {
  Engine_noteOn note vel b :=
    mkRecorder (calls b ++ [CallNoteOn note vel]) (frequency b) (f_lit 1);
  Engine_noteOff note vel b :=
    mkRecorder (calls b ++ [CallNoteOff note vel]) (frequency b) (f_lit 0);
  setBaseFreq body note b :=
    mkRecorder (calls b ++ [CallSetBaseFreq body note])
      (match note with
       | Some n => f_of_Z (note_int n)
       | None => frequency b
       end)
      (amplitude b);
  baseFreq b := frequency b;
  envelopAmp_get b := amplitude b
}.

Definition idle : Recorder := mkRecorder [] (f_lit 0) (f_lit 0).

(** In place of [powf(b, e)]: the chord of [b^e] between [e = 0] and
    [e = 1], exact at both ends. *)
Definition chord_pow (b e : Q) : Q :=
  fadd (f_lit 1) (fmul (fsub b (f_lit 1)) e).

(** In place of [rand()]: a linear congruential generator. *)
Definition lcg (seed : Z) : Z * Z :=
  let x := (seed * 1103515245 + 12345) mod 2 ^ 31 in (x, x).

Definition lcg_max : Z := 2 ^ 31 - 1.

(** The chord engine as its member initialisers leave it. *)
Definition chord_init : ChordEngine.State Q Recorder :=
  ChordEngine.mkState idle
    [f_lit 0; f_lit 0; f_lit 0; f_lit 0]
    [f_lit 0; f_lit 0; f_lit 0; f_lit 0]
    [f_lit 0; f_lit 0; f_lit 0; f_lit 0]
    x00 0 (f_lit (2 # 100)) true (f_lit 1) 4 (f_lit 0) (f_lit 0) 1.

(** The wavetable engine as its member initialisers leave it. *)
Definition wavetable_init : Wavetable2Engine.State Q Recorder :=
  Wavetable2Engine.mkState idle (f_lit 1) (f_lit 0) (f_lit 1) (f_lit 1)
    (f_lit 1) x3c (f_lit 0) (f_lit 0) None.

Definition wavetable_noteOn :=
  Wavetable2Engine.noteOn (B := Recorder) chord_pow 2048 44100.

End Standins.

(** ** The statement of the specification about the anti-alias cutoff *)

Module WavetableClaim.
Import Wavetable2Engine Standins.

(** The cutoff as a function of the note number of the call: within
    bounds, [1.0] up to note 36, [0.3] at note 96, and not higher for a
    higher note. *)
Definition cutoff_by_note_of_call (s : State Q Recorder) : Prop :=
  forall note vel,
    let cutoff := antiAliasCutoff (wavetable_noteOn note vel s) in
    (f_lit (15 # 100) <= cutoff <= f_lit 1)%Q
    /\ (note_int note <= 36 -> cutoff = f_lit 1)
    /\ (note_int note = 96 -> cutoff = f_lit (3 # 10))
    /\ (forall note2 vel2,
          note_int note <= note_int note2 ->
          (antiAliasCutoff (wavetable_noteOn note2 vel2 s) <= cutoff)%Q).

End WavetableClaim.

(** ** More of [audio/Envelop.h]: the time conversion, and calls in a row *)

Module EnvelopRuns.
Import Envelop.

Section WithFloat.
Context {F : Type} `{FloatOps F}.

(** [unsigned int count = ms * sampleRate * 0.001f]: the product of the
    two [unsigned int] wraps, is converted to [float], scaled, and
    truncated. *)
Definition msToSampleCount (ms sampleRate : Z) : Z :=
  f_to_int (fmul (f_of_Z (uint (ms * sampleRate))) (f_lit (1 # 1000))).

(** The conversion gives [ms * sampleRate / 1000], rounded down, at every
    duration of the list. *)
Definition exact_at (sampleRate : Z) (durations : list Z) : bool :=
  forallb (fun ms => msToSampleCount ms sampleRate =? ms * sampleRate / 1000)
          durations.

(** [n] calls of [next] one after the other: the outcomes in order and
    the cursor that is left.  Nothing follows a read outside the table. *)
Fixpoint ticks (data : list (Data F)) (n : nat) (c : Cursor)
    : list (Res F) * Cursor :=
  match n with
  | O => ([], c)
  | S n =>
      match next data c with
      | (Ok v, c') =>
          let (rs, c'') := ticks data n c' in (Ok v :: rs, c'')
      | (r, c') => ([r], c')
      end
  end.

(** The outcomes are all values: no call read outside the table. *)
Definition all_ok (rs : list (Res F)) : Prop :=
  Forall (fun r => exists v, r = Ok v) rs.

End WithFloat.
End EnvelopRuns.

(** ** More of [ChordEngine.h]: the change callbacks of the glide time and
    of the number of voices *)

Module ChordParams.
Import ChordEngine.

Section WithFloat.
Context {F B : Type} `{FloatOps F} `{EngineBase F B}.
Variable sampleRate : Z.                (* [props.sampleRate] *)

(** The callback of [GLIDE], [ms] being the value read back from the
    parameter.  [ms <= 0.0f] is written with [<] and [==]. *)
Definition glide_changed (ms : F) (s : State F B) : State F B :=
  let off := fltb ms (f_lit 0) || feqb ms (f_lit 0) in
  let speed :=
    if off then f_lit 1 (* instant *)
    else fdiv (f_lit 1)
              (fmul (fmul ms (f_lit (1 # 1000))) (f_of_Z sampleRate)) in
  mkState (base s) (phases s) (currentFreq s) (targetFreq s) (lastNote s)
    (heldNotes s)
    (CLAMP fltb speed (f_lit (1 # 10000)) (f_lit 1))
    (negb off)
    (velocity s) (cachedNumVoices s) (body s) (chordType s) (seed s).

(** The callback of [VOICES], [value] being the value read back from the
    parameter. *)
Definition voices_changed (value : F) (s : State F B) : State F B :=
  mkState (base s) (phases s) (currentFreq s) (targetFreq s) (lastNote s)
    (heldNotes s) (glideSpeed s) (glideEnabled s) (velocity s)
    (f_to_int value) (body s) (chordType s) (seed s).

(** The glide decision of [noteOn]: glide enabled, another note than the
    last one, and the amplitude envelope above 0.01. *)
Definition shouldGlide (note : byte) (s : State F B) : bool :=
  glideEnabled s
  && negb (Byte.eqb note (lastNote s))
  && fltb (f_lit (1 # 100)) (envelopAmp_get (base s)).

End WithFloat.
End ChordParams.

(** ** Sequences of events on the wavetable engine *)

Module WavetableRuns.
Import Wavetable2Engine.

Section WithFloat.
Context {F B : Type} `{FloatOps F} `{EngineBase F B}.
Variable pow : F -> F -> F.
Variable wavetable_sampleCount : Z.
Variable sampleRate : Z.

Inductive Event : Type :=
  | NoteOn (note : byte) (velocity : F)
  | PitchChanged (value : F).

Definition handle (s : State F B) (e : Event) : State F B :=
  match e with
  | NoteOn note vel => noteOn pow wavetable_sampleCount sampleRate note vel s
  | PitchChanged value =>
      picth_changed pow wavetable_sampleCount sampleRate value s
  end.

Definition run (events : list Event) (s : State F B) : State F B :=
  fold_left handle events s.

End WithFloat.
End WavetableRuns.

(** ** [plugins/components/Pixel/SeqRecordStatusComponent.h] *)

Module SeqRecordStatusComponent.
Import Stdlib.Strings.String.

(** [int16_t] *)
Definition int16 (x : Z) : Z := (x + 2 ^ 15) mod 2 ^ 16 - 2 ^ 15.

(** [int] arithmetic; [/] truncates toward zero. *)
Definition int_add (a b : Z) : Z := sint (a + b).
Definition int_sub (a b : Z) : Z := sint (a - b).
Definition int_mul (a b : Z) : Z := sint (a * b).
Definition int_div (a b : Z) : Z := sint (Z.quot a b).

(** [std::to_string] of a [size_t]. *)
Definition to_string (n : Z) : String.string :=
  DecimalString.NilZero.string_of_uint (N.to_uint (Z.to_N n)).

Section WithFloat.
Context {F : Type} `{FloatOps F}.
Variables Color Font : Type.

(** What the pointers taken from the sequencer plugin show at one
    moment; [None] is a null pointer. *)
Record Sequencer : Type := mkSequencer {
  isPlayingPtr : option bool;
  stepCounterPtr : option Z;            (* [uint16_t] *)
  recordingEnabledPtr : option bool;
  recordedLoopsCountPtr : option Z;     (* [size_t] *)
  recordArmVal : option F               (* [recordArmVal->get()] *)
}.

Record State : Type := mkState {
  stepCount : Z;                        (* [uint16_t] *)
  lastStepCounter : Z;                  (* [int16_t] *)
  lastRecordedLoopsCount : Z;           (* [size_t] *)
  lastRecordArmValue : F
}.

(** The member initialisers. *)
Definition initial : State := mkState 32 (-1) 0 (f_lit (-1)).

(** The [jobRendering] closure: the flag says whether [renderNext()] is
    called. *)
Definition jobRendering (q : Sequencer) (s : State) : bool * State :=
  let needRender := false in
  (* Check if step counter changed (while playing) *)
  let '(needRender, s) :=
    match isPlayingPtr q, stepCounterPtr q with
    | Some true, Some counter =>
        if negb (lastStepCounter s =? counter)
        then (true, mkState (stepCount s) (int16 counter)
                      (lastRecordedLoopsCount s) (lastRecordArmValue s))
        else (needRender, s)
    | _, _ => (needRender, s)
    end in
  (* Check if not playing anymore *)
  let '(needRender, s) :=
    match isPlayingPtr q with
    | Some false =>
        if negb (lastStepCounter s =? -1)
        then (true, mkState (stepCount s) (-1)
                      (lastRecordedLoopsCount s) (lastRecordArmValue s))
        else (needRender, s)
    | _ => (needRender, s)
    end in
  (* Check if recorded loops count changed *)
  let '(needRender, s) :=
    match recordedLoopsCountPtr q with
    | Some count =>
        if negb (count =? lastRecordedLoopsCount s)
        then (true, mkState (stepCount s) (lastStepCounter s) count
                      (lastRecordArmValue s))
        else (needRender, s)
    | None => (needRender, s)
    end in
  (* Check if record arm state changed *)
  match recordArmVal q with
  | Some arm =>
      if negb (feqb arm (lastRecordArmValue s))
      then (true, mkState (stepCount s) (lastStepCounter s)
                    (lastRecordedLoopsCount s) arm)
      else (needRender, s)
  | None => (needRender, s)
  end.

(** Nothing that the job looks at differs from what the state [s]
    remembers. *)
Definition quiet (q : Sequencer) (s : State) : Prop :=
  (forall c, isPlayingPtr q = Some true -> stepCounterPtr q = Some c ->
             lastStepCounter s = c)
  /\ (isPlayingPtr q = Some false -> lastStepCounter s = -1)
  /\ (forall l, recordedLoopsCountPtr q = Some l ->
                l = lastRecordedLoopsCount s)
  /\ (forall a, recordArmVal q = Some a ->
                feqb a (lastRecordArmValue s) = true).

(** The calls that [render] makes, in order. *)
Inductive Call : Type :=
  | filledRect (position : Z * Z) (size : Z * Z) (color : Color)
  | text (position : Z * Z) (label : String.string) (fontSize : Z)
         (color : Color) (font : Font)
  | textRight (position : Z * Z) (label : String.string) (fontSize : Z)
              (color : Color) (font : Font)
  | logDebug (isArmed : bool) (armValue : F) (isPlaying : bool).

Record Style : Type := mkStyle {
  relativePosition : Z * Z;
  size : Z * Z;
  background : Color;
  progressBarBg : Color;
  progressBarFg : Color;
  recColor : Color;
  armColor : Color;
  textColor : Color;
  font : Font
}.

Definition render (st : Style) (q : Sequencer) (s : State) : list Call :=
  let isPlaying :=
    match isPlayingPtr q with Some b => b | None => false end in
  let x := fst (relativePosition st) in
  let y := snd (relativePosition st) in
  let w := fst (size st) in
  let h := snd (size st) in
  let barHeight := 3 in
  (* Calculate progress bar width *)
  let progressBarWidth := int_sub w 80 in
  let barY := int_add y (int_div (int_sub h barHeight) 2) in
  let textY := int_add y (int_div (int_sub h 8) 2) in
  let isArmed :=
    match recordArmVal q with
    | Some arm => fltb (f_lit 0) arm
    | None => false
    end in
  let loopCount :=
    match recordedLoopsCountPtr q with Some n => n | None => 0 end in
  [filledRect (relativePosition st) (size st) (background st)]
  (* Draw progress bar background *)
  ++ [filledRect (x, barY) (progressBarWidth, barHeight) (progressBarBg st)]
  (* Draw progress bar foreground (current position) *)
  ++ match stepCounterPtr q with
     | Some counter =>
         if isPlaying && (0 <? stepCount s) then
           let progressW :=
             int_div (int_mul progressBarWidth (int_add counter 1))
                     (stepCount s) in
           [filledRect (x, barY) (progressW, barHeight) (progressBarFg st)]
         else []
     | None => []
     end
  ++ match recordArmVal q with
     | Some arm => [logDebug isArmed arm isPlaying]
     | None => []
     end
  (* Draw REC/ARM indicator *)
  ++ (if isPlaying && isArmed then
        [text (int_add (int_add x progressBarWidth) 4, textY)
              "REC"%string 8 (recColor st) (font st)]
      else if isArmed then
        [text (int_add (int_add x progressBarWidth) 4, textY)
              "ARM"%string 8 (armColor st) (font st)]
      else [])
  (* Draw loop count *)
  ++ (if 0 <? loopCount then
        [textRight (int_sub (int_add x w) 2, textY)
                   (String.append "L"%string (to_string loopCount)) 8
                   (textColor st) (font st)]
      else []).

(** The labels of the [draw.text] calls, in order. *)
Definition text_labels (calls : list Call) : list String.string :=
  flat_map (fun c => match c with
                     | text _ label _ _ _ => [label]
                     | _ => []
                     end) calls.

End WithFloat.

Arguments filledRect {F Color Font}.
Arguments text {F Color Font}.
Arguments textRight {F Color Font}.
Arguments logDebug {F Color Font}.
Arguments mkStyle {Color Font}.
Arguments relativePosition {Color Font}.
Arguments size {Color Font}.
Arguments background {Color Font}.
Arguments progressBarBg {Color Font}.
Arguments progressBarFg {Color Font}.
Arguments recColor {Color Font}.
Arguments armColor {Color Font}.
Arguments textColor {Color Font}.
Arguments font {Color Font}.
Arguments render {F H Color Font}.
Arguments text_labels {F Color Font}.

End SeqRecordStatusComponent.

(** * Properties *)

(** ** Rounding to binary32

    The bit patterns of a few literals, as a check of the rounding:
    [0.7f] is [0x3F333333], [0.1f] is [0x3DCCCCCD], [0.15f] is
    [0x3E19999A], [0.3f] is [0x3E99999A]. *)

Example round32_0_7 : round32 (7 # 10) = (11744051 # 16777216)%Q.
Proof. vm_compute. reflexivity. Qed.

Example round32_0_1 : round32 (1 # 10) = (13421773 # 134217728)%Q.
Proof. vm_compute. reflexivity. Qed.

Example round32_0_15 : round32 (15 # 100) = (5033165 # 33554432)%Q.
Proof. vm_compute. reflexivity. Qed.

Example round32_0_3 : round32 (3 # 10) = (5033165 # 16777216)%Q.
Proof. vm_compute. reflexivity. Qed.

Example round32_third : round32 (1 # 3) = (11184811 # 33554432)%Q.
Proof. vm_compute. reflexivity. Qed.

Example round32_tie_even : round32 (16777217 # 1) = (16777216 # 1)%Q.
Proof. vm_compute. reflexivity. Qed.

Example round32_tie_odd : round32 (16777219 # 1) = (16777220 # 1)%Q.
Proof. vm_compute. reflexivity. Qed.

(** ** Machine integers *)

Lemma uint_small x : 0 <= x < 2 ^ 32 -> uint x = x.
Proof. intros Hx. unfold uint. apply Z.mod_small. exact Hx. Qed.

Lemma uint_range x : 0 <= uint x < 2 ^ 32.
Proof. unfold uint. apply Z.mod_pos_bound. lia. Qed.

Lemma sint_small x : - 2 ^ 31 <= x < 2 ^ 31 -> sint x = x.
Proof. intros Hx. unfold sint. rewrite Z.mod_small; lia. Qed.

Lemma size_t_small x : 0 <= x < 2 ^ 64 -> size_t x = x.
Proof. intros Hx. unfold size_t. apply Z.mod_small. exact Hx. Qed.

(** ** The envelope generator *)

Section EnvelopProperties.
Import Envelop EnvelopSpec.
Context {F : Type} `{FloatOps F}.
Implicit Types (data : list (Data F)) (c : Cursor).

(** *** Reading the table *)

Lemma at_Some data i d c : stage data i = Some d -> at_ data i c = (Ok d, c).
Proof. intros E. unfold at_. rewrite E. reflexivity. Qed.

Lemma at_None data i c :
  stage data i = None -> at_ data i c = (OutOfBounds, c).
Proof. intros E. unfold at_. rewrite E. reflexivity. Qed.

Lemma stage_inside data i :
  0 <= i < Z.of_nat (length data) -> exists d, stage data i = Some d.
Proof.
  intros [Hlo Hhi]. unfold stage.
  destruct (Z.ltb_spec i 0) as [|_]; [lia|].
  destruct (lookup_lt_is_Some_2 data (Z.to_nat i)) as [d Hd]; [lia|].
  exists d. exact Hd.
Qed.

Lemma stage_outside data i :
  Z.of_nat (length data) <= i -> stage data i = None.
Proof.
  intros Hi. unfold stage.
  destruct (Z.ltb_spec i 0) as [|_]; [reflexivity|].
  apply lookup_ge_None_2. lia.
Qed.

Lemma stage_next_inside data i :
  0 <= i < Z.of_nat (length data) - 1 ->
  exists b, stage data (uint (i + 1)) = Some b.
Proof.
  intros Hi. apply stage_inside.
  pose proof (uint_range (i + 1)) as Hr. split; [lia|].
  destruct (Z.lt_ge_cases (i + 1) (2 ^ 32)) as [Hs|Hs].
  - rewrite uint_small; lia.
  - unfold uint in *. lia.
Qed.

Lemma size_minus_1_nonempty data :
  (1 <= length data)%nat -> size_minus_1 data = Z.of_nat (length data) - 1.
Proof.
  intros Hlen. unfold size_minus_1.
  destruct (Z.eqb_spec (Z.of_nat (length data)) 0); [lia|reflexivity].
Qed.

Lemma isSustain_Some data i d c :
  stage data i = Some d -> isSustain data i c = (Ok (sampleCount d =? 0), c).
Proof.
  intros E. unfold isSustain, mbind, M_bind. rewrite (at_Some _ _ d); auto.
Qed.

Lemma isSustain_is_sustain data i c :
  0 <= i < Z.of_nat (length data) ->
  isSustain data i c = (Ok (is_sustain data i), c).
Proof.
  intros Hi. destruct (stage_inside data i Hi) as [d Hd].
  rewrite (isSustain_Some data i d) by exact Hd.
  unfold is_sustain. rewrite Hd. reflexivity.
Qed.

Ltac run :=
  unfold mbind, M_bind, mret, M_ret, get_sampleCountRef, set_sampleCountRef,
    get_indexRef, set_indexRef, out_of_bounds;
  cbn [sampleCountRef indexRef].

Lemma env_interpolation data sc i c :
  env data sc i c = (interpolation data i sc, c).
Proof.
  unfold env, interpolation, at_. run.
  destruct (stage data i) as [a|]; [|reflexivity].
  destruct (stage data (uint (i + 1))) as [b|]; reflexivity.
Qed.

Lemma setNextPhase_eq c :
  setNextPhase c = (Ok tt, mkCursor 0 (uint (indexRef c + 1))).
Proof. reflexivity. Qed.

(** *** [next] *)

Lemma next_at_last data c :
  (1 <= length data)%nat -> last_index data <= indexRef c ->
  next data c
    = (Ok (f_lit 0), mkCursor (uint (sampleCountRef c + 1)) (indexRef c)).
Proof.
  unfold last_index. intros Hlen Hge. unfold next. run.
  rewrite size_minus_1_nonempty by lia.
  destruct (Z.leb_spec (Z.of_nat (length data) - 1) (indexRef c)) as [_|];
    [|lia].
  reflexivity.
Qed.

Lemma next_below_last data c :
  0 <= indexRef c < last_index data ->
  let i := indexRef c in
  let t := uint (sampleCountRef c + 1) in
  exists a b, stage data i = Some a /\ stage data (uint (i + 1)) = Some b /\
    next data c =
      (if sampleCount a =? 0 then (Ok (modulation a), mkCursor t i)
       else if t <? sampleCount a then (Ok (level a b t), mkCursor t i)
       else if sampleCount b =? 0
            then (Ok (modulation b), mkCursor 0 (uint (i + 1)))
            else (interpolation data (uint (i + 1)) 0,
                  mkCursor 0 (uint (i + 1)))).
Proof.
  intros Hi i t. unfold last_index in Hi.
  destruct (stage_inside data i) as [a Ha]; [lia|].
  destruct (stage_next_inside data i) as [b Hb]; [lia|].
  exists a, b. split; [exact Ha|]. split; [exact Hb|].
  unfold next. run. fold i t.
  rewrite size_minus_1_nonempty by lia.
  destruct (Z.leb_spec (Z.of_nat (length data) - 1) i) as [|_]; [lia|].
  rewrite (isSustain_Some data i a) by exact Ha.
  destruct (sampleCount a =? 0) eqn:Ea.
  - rewrite (at_Some data i a) by exact Ha. reflexivity.
  - rewrite (at_Some data i a) by exact Ha. cbn [sampleCountRef indexRef].
    destruct (Z.leb_spec (sampleCount a) t) as [Hge|Hlt'].
    + destruct (Z.ltb_spec t (sampleCount a)) as [|_]; [lia|].
      rewrite setNextPhase_eq. cbn [indexRef]. fold i.
      rewrite (isSustain_Some data _ b) by exact Hb.
      destruct (sampleCount b =? 0) eqn:Eb; cbn [sampleCountRef indexRef].
      * rewrite (at_Some data _ b) by exact Hb. reflexivity.
      * rewrite env_interpolation. reflexivity.
    + destruct (Z.ltb_spec t (sampleCount a)) as [_|]; [|lia].
      cbn [sampleCountRef indexRef]. rewrite env_interpolation.
      unfold interpolation. rewrite Ha, Hb. reflexivity.
Qed.

(** The rule of [next], wherever it has a value.  In a table of at least
    two stages, with the cursor at a stage [i] below the last one, [next]
    first increments the sample count to [t];
    in a sustain stage it returns [m[i]]; while [t < d[i]] it returns
    [m[i] + (m[i+1] - m[i]) * (t / d[i])]; once [t >= d[i]] the cursor
    moves to stage [i+1] with the count reset to 0, and the value is the
    constant of that stage if it is a sustain stage and the rule at stage
    [i+1] and count 0 otherwise; that rule reads the target of stage
    [i+2], and [interpolation] has no value where the table has none.
    With the cursor at the last index the value is 0. *)
Theorem next_interpolation_rule data c :
  (2 <= length data)%nat -> 0 <= indexRef c ->
  let i := indexRef c in
  let t := uint (sampleCountRef c + 1) in
  (i < Z.of_nat (length data) - 1 ->
     exists a b, stage data i = Some a /\ stage data (uint (i + 1)) = Some b /\
       next data c =
         (if sampleCount a =? 0 then (Ok (modulation a), mkCursor t i)
          else if t <? sampleCount a then (Ok (level a b t), mkCursor t i)
          else if sampleCount b =? 0
               then (Ok (modulation b), mkCursor 0 (uint (i + 1)))
               else (interpolation data (uint (i + 1)) 0,
                     mkCursor 0 (uint (i + 1)))))
  /\ (Z.of_nat (length data) - 1 <= i ->
      next data c = (Ok (f_lit 0), mkCursor t i)).
Proof.
  intros Hlen Hi i t. split.
  - intros Hlt. apply next_below_last. unfold last_index. lia.
  - intros Hge. apply next_at_last; unfold last_index; lia.
Qed.

(** *** [release] *)

Section Scan.
Variable data : list (Data F).
Hypothesis Hsize : Z.of_nat (length data) <= 2 ^ 31.

Lemma release_loop_step fuel i c :
  0 <= i < last_index data ->
  release_loop data (S fuel) i c =
    release_loop data fuel (i + 1)
      (if is_sustain data i then mkCursor 0 (i + 1) else c).
Proof.
  intros Hi. unfold last_index in Hi. cbn [release_loop].
  rewrite size_t_small by lia.
  rewrite size_minus_1_nonempty by lia.
  destruct (Z.ltb_spec i (Z.of_nat (length data) - 1)) as [_|]; [|lia].
  run. rewrite uint_small by lia.
  rewrite isSustain_is_sustain by lia.
  rewrite sint_small by lia.
  destruct (is_sustain data i).
  - rewrite setNextPhase_eq. cbn [indexRef].
    rewrite uint_small by lia. reflexivity.
  - reflexivity.
Qed.

Lemma release_loop_exit fuel i c :
  i = last_index data -> (1 <= length data)%nat ->
  release_loop data fuel i c = (Ok tt, c).
Proof.
  intros -> Hlen. unfold last_index.
  destruct fuel; cbn [release_loop];
    rewrite size_t_small by lia;
    rewrite size_minus_1_nonempty by lia;
    rewrite Z.ltb_irrefl; reflexivity.
Qed.

(** No sustain stage from [i] on: the loop leaves the cursor alone. *)
Lemma release_loop_none fuel : forall i c,
  0 <= i <= last_index data ->
  last_index data - i <= Z.of_nat fuel ->
  (forall k, i <= k < last_index data -> is_sustain data k = false) ->
  release_loop data fuel i c = (Ok tt, c).
Proof.
  induction fuel as [|fuel IH]; intros i c Hi Hfuel Hnone.
  - apply release_loop_exit; unfold last_index in *; lia.
  - destruct (Z.eq_dec i (last_index data)) as [E|E].
    + apply release_loop_exit; unfold last_index in *; lia.
    + rewrite release_loop_step by lia.
      rewrite (Hnone i) by lia.
      apply IH; [lia|lia|]. intros k Hk. apply Hnone. lia.
Qed.

(** A sustain stage [j] from [i] on with none after it: the loop leaves
    the cursor just past [j]. *)
Lemma release_loop_last fuel j : forall i c,
  0 <= i <= j -> j < last_index data ->
  last_index data - i <= Z.of_nat fuel ->
  is_sustain data j = true ->
  (forall k, j < k < last_index data -> is_sustain data k = false) ->
  release_loop data fuel i c = (Ok tt, mkCursor 0 (j + 1)).
Proof.
  induction fuel as [|fuel IH]; intros i c Hi Hj Hfuel Hsus Hafter; [lia|].
  rewrite release_loop_step by lia.
  destruct (Z.eq_dec i j) as [->|Hne].
  - rewrite Hsus. apply release_loop_none; [lia|lia|].
    intros k Hk. apply Hafter. lia.
  - apply IH; try assumption; lia.
Qed.

End Scan.

(** C2, as the source has it.  From a sustain stage [release] moves the
    cursor one stage further, count reset to 0.  Otherwise its loop runs
    over every stage from the current one up to the terminal stage
    without stopping at the first hit, so the cursor ends just past the
    last sustain stage there; without a sustain stage nothing changes.
    The loop counter is an [int], hence the bound on the table. *)
Theorem release_past_last_sustain data c :
  (1 <= length data)%nat -> Z.of_nat (length data) <= 2 ^ 31 ->
  0 <= indexRef c <= last_index data ->
  (is_sustain data (indexRef c) = true ->
   release data c = (Ok tt, mkCursor 0 (indexRef c + 1)))
  /\ (is_sustain data (indexRef c) = false ->
      (forall j,
          indexRef c <= j < last_index data ->
          is_sustain data j = true ->
          (forall k, j < k < last_index data -> is_sustain data k = false) ->
          release data c = (Ok tt, mkCursor 0 (j + 1)))
      /\ ((forall k, indexRef c <= k < last_index data ->
                     is_sustain data k = false) ->
          release data c = (Ok tt, c))).
Proof.
  intros Hlen Hsize Hi. unfold last_index in Hi.
  assert (Hrel : release data c =
    if is_sustain data (indexRef c)
    then (Ok tt, mkCursor 0 (indexRef c + 1))
    else release_loop data (length data) (indexRef c) c).
  { unfold release. run. rewrite isSustain_is_sustain by lia.
    destruct (is_sustain data (indexRef c)).
    - rewrite setNextPhase_eq. rewrite uint_small by lia. reflexivity.
    - rewrite sint_small by lia. reflexivity. }
  rewrite Hrel. split.
  - intros ->. reflexivity.
  - intros ->. split.
    + intros j Hj Hsus Hafter.
      apply release_loop_last; unfold last_index in *; try assumption; lia.
    + intros Hnone.
      apply release_loop_none; unfold last_index in *; try assumption; lia.
Qed.


(** *** [peek] *)

(** C3, as the source has it.  [peek] leaves the cursor as it is and
    returns the envelope value at the current sample count [t], without
    the increment [next] starts with: 0 at the last index, [m[i]] in a
    sustain stage, [m[i+1]] once [t >= d[i]], and
    [m[i] + (m[i+1] - m[i]) * (t / d[i])] otherwise.  At the last index
    and in a sustain stage this is the value of the following [next]. *)
Theorem peek_current_value data c :
  (2 <= length data)%nat -> 0 <= indexRef c ->
  let i := indexRef c in
  let t := sampleCountRef c in
  snd (peek data c) = c
  /\ (i < last_index data ->
      exists a b, stage data i = Some a /\ stage data (uint (i + 1)) = Some b /\
        fst (peek data c) =
          Ok (if sampleCount a =? 0 then modulation a
              else if sampleCount a <=? t then modulation b
              else level a b t))
  /\ (last_index data <= i -> fst (peek data c) = Ok (f_lit 0))
  /\ (last_index data <= i \/ is_sustain data i = true ->
      fst (peek data c) = fst (next data c)).
Proof.
  intros Hlen Hi i t. unfold last_index.
  assert (Hlast : last_index data <= i ->
                  peek data c = (Ok (f_lit 0), c)).
  { unfold last_index. intros Hge. unfold peek. run. fold i.
    rewrite size_minus_1_nonempty by lia.
    destruct (Z.leb_spec (Z.of_nat (length data) - 1) i) as [_|]; [|lia].
    reflexivity. }
  assert (Hin : i < last_index data ->
    exists a b, stage data i = Some a /\ stage data (uint (i + 1)) = Some b /\
      peek data c =
        (Ok (if sampleCount a =? 0 then modulation a
             else if sampleCount a <=? t then modulation b
             else level a b t), c)).
  { unfold last_index. intros Hlt.
    destruct (stage_inside data i) as [a Ha]; [lia|].
    destruct (stage_next_inside data i) as [b Hb]; [lia|].
    exists a, b. split; [exact Ha|]. split; [exact Hb|].
    unfold peek. run. fold i. subst t.
    rewrite size_minus_1_nonempty by lia.
    destruct (Z.leb_spec (Z.of_nat (length data) - 1) i) as [|_]; [lia|].
    rewrite (isSustain_Some data i a) by exact Ha.
    destruct (sampleCount a =? 0);
      rewrite (at_Some data i a) by exact Ha; [reflexivity|].
    destruct (sampleCount a <=? sampleCountRef c).
    - assert (Hb' : uint (i + 1) < Z.of_nat (length data)).
      { destruct (Z.lt_ge_cases (uint (i + 1)) (Z.of_nat (length data)))
          as [|Hge]; [assumption|].
        rewrite (stage_outside data _ Hge) in Hb. discriminate. }
      destruct (Z.ltb_spec (uint (i + 1)) (Z.of_nat (length data)))
        as [_|]; [|lia].
      rewrite (at_Some data _ b) by exact Hb. reflexivity.
    - rewrite env_interpolation. unfold interpolation.
      rewrite Ha, Hb. reflexivity. }
  split; [|split; [|split]].
  - destruct (Z.lt_ge_cases i (last_index data)) as [Hlt|Hge].
    + destruct (Hin Hlt) as (a & b & _ & _ & ->). reflexivity.
    + rewrite (Hlast Hge). reflexivity.
  - intros Hlt. destruct (Hin Hlt) as (a & b & Ha & Hb & ->).
    exists a, b. auto.
  - intros Hge. rewrite (Hlast Hge). reflexivity.
  - intros Hcase. unfold last_index in Hin, Hlast.
    destruct (Z.lt_ge_cases i (Z.of_nat (length data) - 1)) as [Hlt|Hge].
    + destruct Hcase as [Hge|Hsus]; [lia|].
      destruct (Hin Hlt) as (a & b & Ha & Hb & ->).
      destruct (next_below_last data c) as (a' & b' & Ha' & Hb' & ->);
        [unfold last_index; fold i; lia|].
      fold i in Ha'. rewrite Ha in Ha'. injection Ha' as <-.
      unfold is_sustain in Hsus. rewrite Ha in Hsus. rewrite Hsus.
      reflexivity.
    + rewrite (Hlast Hge).
      rewrite next_at_last by (unfold last_index; fold i; lia).
      reflexivity.
Qed.

(** *** The first stage *)

(** C4, as the source has it.  In a first stage [(m0, d)] with [d <> 0]
    toward [m1], a call of [next] that finds the incremented sample count
    [t] below [d] returns [m0 + (m1 - m0) * (t / d)].  [next] increments
    before it computes, so the first call after [reset] is the one at
    [t = 1]: it returns [m0 + (m1 - m0) * (1 / d)] when [1 < d]. *)
Theorem next_in_first_stage data a b c :
  (2 <= length data)%nat ->
  stage data 0 = Some a -> stage data 1 = Some b -> sampleCount a <> 0 ->
  (indexRef c = 0 ->
   let t := uint (sampleCountRef c + 1) in
   t < sampleCount a ->
   next data c = (Ok (level a b t), mkCursor t 0))
  /\ (1 < sampleCount a ->
      next data (snd (reset c)) = (Ok (level a b 1), mkCursor 1 0)).
Proof.
  intros Hlen Ha Hb Hd.
  assert (Hgen : forall c', indexRef c' = 0 ->
            uint (sampleCountRef c' + 1) < sampleCount a ->
            next data c' =
              (Ok (level a b (uint (sampleCountRef c' + 1))),
               mkCursor (uint (sampleCountRef c' + 1)) 0)).
  { intros c' Hc' Ht.
    destruct (next_below_last data c') as (a' & b' & Ha' & Hb' & ->);
      [unfold last_index; lia|].
    rewrite Hc' in Ha', Hb' |- *. change (uint (0 + 1)) with 1 in Hb' |- *.
    rewrite Ha in Ha'. injection Ha' as <-.
    rewrite Hb in Hb'. injection Hb' as <-.
    destruct (Z.eqb_spec (sampleCount a) 0) as [|_]; [contradiction|].
    destruct (Z.ltb_spec (uint (sampleCountRef c' + 1)) (sampleCount a))
      as [_|]; [|lia].
    reflexivity. }
  split.
  - intros Hc t Ht. apply Hgen; assumption.
  - intros H1. rewrite Hgen; reflexivity || exact H1.
Qed.

(** *** Construction *)

(** C9, as the source has it.  The constructor accepts every stage table
    and reports nothing, whatever its length, and [next] does not look at
    the length either: on a table of one stage every call returns 0, on
    the empty table every call reads [data[index]] outside the table. *)
Theorem constructor_accepts_any_table (table : list (Data F)) c :
  0 <= indexRef c < 2 ^ 32 ->
  Envelop table = Built (mkObject table (mkCursor 0 0))
  /\ (length table = 1%nat ->
      fst (next table c) = Ok (f_lit 0))
  /\ (length table = 0%nat ->
      fst (next table c) = OutOfBounds).
Proof.
  intros Hi. split; [reflexivity|]. split; intros Hlen.
  - unfold next. run. unfold size_minus_1. rewrite Hlen.
    change (Z.of_nat 1 =? 0) with false. cbn match.
    destruct (Z.leb_spec (Z.of_nat 1 - 1) (indexRef c)) as [_|]; [|lia].
    reflexivity.
  - unfold next. run. unfold size_minus_1. rewrite Hlen.
    change (Z.of_nat 0 =? 0) with true. cbn match.
    destruct (Z.leb_spec (2 ^ 64 - 1) (indexRef c)) as [|_]; [lia|].
    unfold isSustain. run.
    rewrite at_None; [reflexivity|]. apply stage_outside. lia.
Qed.


(** *** The cursor invariant

    What holds of the invariant [0 <= index < size]: [next], [reset] and
    [peek] keep it, and so does [release] from every stage below the last
    one.  [release] at the last index is the exception, see the run of the
    attack-and-hold table below. *)

Lemma cursor_ok_next data c :
  (2 <= length data)%nat -> cursor_ok data c ->
  cursor_ok data (snd (next data c)).
Proof.
  unfold cursor_ok. intros Hlen Hc.
  destruct (Z.lt_ge_cases (indexRef c) (last_index data)) as [Hlt|Hge].
  - destruct (next_below_last data c) as (a & b & Ha & Hb & ->); [lia|].
    assert (Hn : 0 <= uint (indexRef c + 1) < Z.of_nat (length data)).
    { split; [apply uint_range|].
      destruct (Z.lt_ge_cases (uint (indexRef c + 1)) (Z.of_nat (length data)))
        as [|Hout]; [assumption|].
      rewrite (stage_outside data _ Hout) in Hb. discriminate. }
    destruct (sampleCount a =? 0); [exact Hc|].
    destruct (_ <? sampleCount a); [exact Hc|].
    destruct (sampleCount b =? 0); exact Hn.
  - rewrite next_at_last by (assumption || lia). exact Hc.
Qed.

Lemma cursor_ok_reset data c :
  (2 <= length data)%nat -> cursor_ok data (snd (reset c)).
Proof.
  unfold cursor_ok, reset. intros Hlen. run. cbn [snd indexRef]. lia.
Qed.

Lemma silent_at_last data c :
  (2 <= length data)%nat -> last_index data <= indexRef c ->
  isSilent data c = (Ok true, c) /\ fst (next data c) = Ok (f_lit 0).
Proof.
  intros Hlen Hge. split.
  - unfold isSilent. run. rewrite size_minus_1_nonempty by lia.
    unfold last_index in Hge.
    destruct (Z.leb_spec (Z.of_nat (length data) - 1) (indexRef c)) as [_|];
      [reflexivity|lia].
  - rewrite next_at_last by (assumption || lia). reflexivity.
Qed.

Lemma release_loop_index data fuel : forall i c,
  Z.of_nat (length data) <= 2 ^ 31 ->
  0 <= i <= last_index data ->
  last_index data - i <= Z.of_nat fuel ->
  exists c', release_loop data fuel i c = (Ok tt, c')
             /\ (c' = c \/ i < indexRef c' <= last_index data).
Proof.
  induction fuel as [|fuel IH]; intros i c Hsize Hi Hfuel.
  - exists c. split; [|left; reflexivity].
    apply release_loop_exit; unfold last_index in *; lia.
  - destruct (Z.eq_dec i (last_index data)) as [E|E].
    + exists c. split; [|left; reflexivity].
      apply release_loop_exit; unfold last_index in *; lia.
    + rewrite release_loop_step by (assumption || lia).
      destruct (IH (i + 1) (if is_sustain data i then mkCursor 0 (i + 1) else c))
        as (c' & -> & Hc'); [assumption|lia|lia|].
      exists c'. split; [reflexivity|].
      destruct Hc' as [->|Hc']; [|right; lia].
      destruct (is_sustain data i); [right; cbn; lia|left; reflexivity].
Qed.

Lemma cursor_ok_release_below_last data c :
  (2 <= length data)%nat -> Z.of_nat (length data) <= 2 ^ 31 ->
  0 <= indexRef c < last_index data ->
  exists c', release data c = (Ok tt, c') /\ cursor_ok data c'.
Proof.
  intros Hlen Hsize Hi. unfold cursor_ok. unfold last_index in Hi.
  unfold release. run. rewrite isSustain_is_sustain by lia.
  destruct (is_sustain data (indexRef c)).
  - rewrite setNextPhase_eq. rewrite uint_small by lia.
    eexists. split; [reflexivity|]. cbn. lia.
  - rewrite sint_small by lia.
    destruct (release_loop_index data (length data) (indexRef c) c)
      as (c' & -> & Hc'); [assumption|unfold last_index; lia
                          |unfold last_index; lia|].
    exists c'. split; [reflexivity|]. unfold last_index in Hc'.
    destruct Hc' as [->|Hc']; lia.
Qed.

(** *** Reads of [next]

    When the last stage has duration 0, as a table ending in silence has,
    no call of [next] from a cursor within the table reads outside it. *)

Lemma next_in_bounds_when_last_holds data c :
  (2 <= length data)%nat -> Z.of_nat (length data) <= 2 ^ 32 ->
  is_sustain data (last_index data) = true ->
  0 <= indexRef c ->
  exists v, fst (next data c) = Ok v.
Proof.
  intros Hlen Hsize Hlast Hi.
  destruct (Z.lt_ge_cases (indexRef c) (last_index data)) as [Hlt|Hge].
  - destruct (next_below_last data c) as (a & b & Ha & Hb & ->); [lia|].
    unfold last_index in Hlt.
    rewrite (uint_small (indexRef c + 1)) in Hb |- * by lia.
    destruct (sampleCount a =? 0); [eexists; reflexivity|].
    destruct (_ <? sampleCount a); [eexists; reflexivity|].
    destruct (sampleCount b =? 0) eqn:Eb; [eexists; reflexivity|].
    assert (Hne : indexRef c + 1 <> last_index data).
    { intros E. unfold is_sustain in Hlast. rewrite <- E, Hb in Hlast.
      congruence. }
    unfold last_index in Hne.
    destruct (stage_inside data (indexRef c + 1 + 1)) as [b2 Hb2]; [lia|].
    unfold interpolation. rewrite Hb.
    rewrite (uint_small (indexRef c + 1 + 1)) by lia.
    rewrite Hb2. eexists. reflexivity.
  - rewrite next_at_last by (assumption || lia). eexists. reflexivity.
Qed.

End EnvelopProperties.

(** ** The chord engine *)

Section ChordProperties.
Import ChordEngine ChordSpec.
Context {F B : Type} `{FloatOps F} `{EngineBase F B}.
Variable powf : F -> F -> F.
Variable rand : Z -> Z * Z.
Variable RAND_MAX : Z.
Implicit Types (s : State F B) (note : byte) (vel : F).

Local Abbreviation noteOn := (noteOn powf rand RAND_MAX).
Local Abbreviation noteOns := (noteOns powf rand RAND_MAX).
Local Abbreviation setVoice := (setVoice powf rand RAND_MAX).
Local Abbreviation semitones := (semitones powf).

(** *** The loop over the voices *)

Lemma setVoice_frame g offsets s v :
  base (setVoice g offsets s v) = base s
  /\ heldNotes (setVoice g offsets s v) = heldNotes s
  /\ cachedNumVoices (setVoice g offsets s v) = cachedNumVoices s
  /\ chordType (setVoice g offsets s v) = chordType s.
Proof.
  unfold ChordEngine.setVoice.
  destruct (v <? cachedNumVoices s); cbn; auto.
Qed.

Lemma setVoice_targetFreq g offsets s v :
  targetFreq (setVoice g offsets s v) =
    if v <? cachedNumVoices s
    then <[Z.to_nat v :=
             fmul (baseFreq (base s)) (semitones (offsets !!! Z.to_nat v))]>
           (targetFreq s)
    else targetFreq s.
Proof.
  unfold ChordEngine.setVoice.
  destruct (v <? cachedNumVoices s); reflexivity.
Qed.

Lemma voices_frame g offsets (vs : list Z) : forall s,
  base (fold_left (setVoice g offsets) vs s) = base s
  /\ heldNotes (fold_left (setVoice g offsets) vs s) = heldNotes s
  /\ cachedNumVoices (fold_left (setVoice g offsets) vs s) = cachedNumVoices s
  /\ chordType (fold_left (setVoice g offsets) vs s) = chordType s.
Proof.
  induction vs as [|v vs IH]; intros s; cbn [fold_left]; [auto|].
  destruct (IH (setVoice g offsets s v)) as (-> & -> & -> & ->).
  apply setVoice_frame.
Qed.

(** *** The held-note counter *)

Lemma noteOn_heldNotes note vel s :
  heldNotes (noteOn note vel s) = sint (heldNotes s + 1).
Proof.
  unfold ChordEngine.noteOn. cbn [heldNotes with_note].
  match goal with
  | |- context [fold_left (ChordEngine.setVoice _ _ _ ?g ?o) ?l ?s0] =>
      destruct (voices_frame g o l s0) as (_ & -> & _)
  end.
  destruct (negb _); reflexivity.
Qed.

Lemma noteOns_heldNotes (ons : list (byte * F)) : forall s,
  0 <= heldNotes s -> heldNotes s + Z.of_nat (length ons) < 2 ^ 31 ->
  heldNotes (noteOns ons s) = heldNotes s + Z.of_nat (length ons).
Proof.
  induction ons as [|[note vel] ons IH]; intros s Hlo Hhi;
    cbn [ChordSpec.noteOns fold_left length] in *; [lia|].
  change (fold_left _ ons ?s0) with (noteOns ons s0).
  cbn [fst snd].
  assert (E : heldNotes (noteOn note vel s) = heldNotes s + 1).
  { rewrite noteOn_heldNotes. apply sint_small. lia. }
  rewrite IH; rewrite E; lia.
Qed.

Lemma noteOff_held note vel s :
  1 < heldNotes s < 2 ^ 31 ->
  heldNotes (noteOff note vel s) = heldNotes s - 1
  /\ base (noteOff note vel s) = base s.
Proof.
  intros Hh. unfold noteOff.
  destruct (Z.ltb_spec 0 (heldNotes s)) as [_|]; [|lia].
  cbn [heldNotes with_note]. rewrite sint_small by lia.
  destruct (Z.eqb_spec (heldNotes s - 1) 0) as [|_]; [lia|].
  cbn [heldNotes base with_note]. auto.
Qed.

Lemma noteOff_last note vel s :
  heldNotes s = 1 ->
  heldNotes (noteOff note vel s) = 0
  /\ base (noteOff note vel s) = Engine_noteOff note vel (base s).
Proof.
  intros Hh. unfold noteOff. rewrite Hh. cbn. auto.
Qed.

Lemma noteOff_idle note vel s :
  heldNotes s = 0 ->
  heldNotes (noteOff note vel s) = 0
  /\ base (noteOff note vel s) = Engine_noteOff note vel (base s).
Proof.
  intros Hh. unfold noteOff. rewrite Hh. cbn. rewrite Hh. cbn. auto.
Qed.

Lemma noteOffs_held (offs : list (byte * F)) : forall s,
  Z.of_nat (length offs) < heldNotes s < 2 ^ 31 ->
  heldNotes (noteOffs offs s) = heldNotes s - Z.of_nat (length offs)
  /\ base (noteOffs offs s) = base s.
Proof.
  induction offs as [|[note vel] offs IH]; intros s Hh;
    cbn [ChordSpec.noteOffs fold_left length] in *; [split; [lia|reflexivity]|].
  change (fold_left _ offs ?s0) with (noteOffs offs s0).
  cbn [fst snd].
  destruct (noteOff_held note vel s) as [E1 E2]; [lia|].
  destruct (IH (noteOff note vel s)) as [E3 E4]; [lia|].
  rewrite E3, E4, E1, E2. split; [lia|reflexivity].
Qed.

(** C6.  Every [noteOn] adds one to the held-note counter; [noteOff]
    takes one off and never goes below zero; [Engine::noteOff], the
    release of the amplitude envelope, is called only when the counter is
    zero after that.  So after [n] calls of [noteOn], fewer than [n] calls
    of [noteOff] leave the base engine untouched, and the [noteOff] that
    takes the counter from one to zero calls it.  The counter is an [int]:
    the count is taken below [2^31]. *)
Theorem held_note_gating s (ons offs : list (byte * F)) :
  0 <= heldNotes s ->
  heldNotes s + Z.of_nat (length ons) < 2 ^ 31 ->
  let s1 := noteOns ons s in
  heldNotes s1 = heldNotes s + Z.of_nat (length ons)
  /\ (forall note vel s0,
        0 <= heldNotes s0 < 2 ^ 31 - 1 ->
        heldNotes (noteOn note vel s0) = heldNotes s0 + 1)
  /\ ((length offs < length ons)%nat ->
      heldNotes (noteOffs offs s1) = heldNotes s1 - Z.of_nat (length offs)
      /\ base (noteOffs offs s1) = base s1)
  /\ (forall note vel s0,
        heldNotes s0 = 1 ->
        heldNotes (noteOff note vel s0) = 0
        /\ base (noteOff note vel s0) = Engine_noteOff note vel (base s0))
  /\ (forall note vel s0,
        0 <= heldNotes s0 < 2 ^ 31 ->
        heldNotes (noteOff note vel s0) = Z.max 0 (heldNotes s0 - 1)
        /\ (heldNotes (noteOff note vel s0) <> 0 ->
            base (noteOff note vel s0) = base s0)
        /\ (heldNotes (noteOff note vel s0) = 0 ->
            base (noteOff note vel s0) = Engine_noteOff note vel (base s0))).
Proof.
  intros Hlo Hhi s1.
  assert (E1 : heldNotes s1 = heldNotes s + Z.of_nat (length ons))
    by (apply noteOns_heldNotes; assumption).
  split; [exact E1|]. split; [|split; [|split]].
  - intros note vel s0 Hr. rewrite noteOn_heldNotes. apply sint_small. lia.
  - intros Hfew. apply noteOffs_held. lia.
  - intros note vel s0. apply noteOff_last.
  - intros note vel s0 Hr.
    destruct (Z.eq_dec (heldNotes s0) 0) as [E0|N0].
    { destruct (noteOff_idle note vel s0 E0) as [-> ->]. rewrite E0.
      split; [reflexivity|]. split; [intros C; contradiction|reflexivity]. }
    destruct (Z.eq_dec (heldNotes s0) 1) as [E|N].
    { destruct (noteOff_last note vel s0 E) as [-> ->]. rewrite E.
      split; [reflexivity|]. split; [intros C; contradiction|reflexivity]. }
    destruct (noteOff_held note vel s0) as [-> ->]; [lia|].
    split; [lia|]. split; [reflexivity|]. intros C. lia.
Qed.


(** *** The target frequencies *)

Lemma voices_targetFreq g offsets s t0 t1 t2 t3 :
  targetFreq s = [t0; t1; t2; t3] ->
  let target v :=
    fmul (baseFreq (base s)) (semitones (offsets !!! Z.to_nat v)) in
  targetFreq (fold_left (setVoice g offsets) [0; 1; 2; 3] s) =
    [ if 0 <? cachedNumVoices s then target 0 else t0;
      if 1 <? cachedNumVoices s then target 1 else t1;
      if 2 <? cachedNumVoices s then target 2 else t2;
      if 3 <? cachedNumVoices s then target 3 else t3 ].
Proof.
  intros Et target. cbn [fold_left].
  set (s1 := setVoice g offsets s 0).
  set (s2 := setVoice g offsets s1 1).
  set (s3 := setVoice g offsets s2 2).
  destruct (setVoice_frame g offsets s 0) as (B1 & _ & N1 & _). fold s1 in B1, N1.
  destruct (setVoice_frame g offsets s1 1) as (B2 & _ & N2 & _). fold s2 in B2, N2.
  destruct (setVoice_frame g offsets s2 2) as (B3 & _ & N3 & _). fold s3 in B3, N3.
  assert (E1 : targetFreq s1 =
    [if 0 <? cachedNumVoices s then target 0 else t0; t1; t2; t3]).
  { unfold s1. rewrite setVoice_targetFreq, Et.
    destruct (0 <? cachedNumVoices s); reflexivity. }
  assert (E2 : targetFreq s2 =
    [if 0 <? cachedNumVoices s then target 0 else t0;
     if 1 <? cachedNumVoices s then target 1 else t1; t2; t3]).
  { unfold s2. rewrite setVoice_targetFreq, E1, N1, B1.
    destruct (1 <? cachedNumVoices s); reflexivity. }
  assert (E3 : targetFreq s3 =
    [if 0 <? cachedNumVoices s then target 0 else t0;
     if 1 <? cachedNumVoices s then target 1 else t1;
     if 2 <? cachedNumVoices s then target 2 else t2; t3]).
  { unfold s3. rewrite setVoice_targetFreq, E2, N2, N1, B2, B1.
    destruct (2 <? cachedNumVoices s); reflexivity. }
  rewrite setVoice_targetFreq, E3, N3, N2, N1, B3, B2, B1.
  destruct (3 <? cachedNumVoices s); reflexivity.
Qed.

(** [noteOn] as the loop over the voices, run from a state that differs
    from the one before the call in the base engine and the velocity. *)
Lemma noteOn_shape note vel s :
  exists g s0,
    cachedNumVoices s0 = cachedNumVoices s
    /\ targetFreq s0 = targetFreq s
    /\ chordType s0 = chordType s
    /\ noteOn note vel s =
         let sL :=
           fold_left
             (setVoice g
                (chordDefs !!! Z.to_nat (CLAMP Z.ltb (f_to_int (chordType s0)) 0 5)))
             [0; 1; 2; 3] s0 in
         with_note note (sint (heldNotes sL + 1)) sL.
Proof.
  unfold ChordEngine.noteOn.
  change (Z.of_nat (length chordDefs) - 1) with 5.
  eexists. eexists. split; [|split; [|split; [|reflexivity]]].
  - destruct (negb _); reflexivity.
  - destruct (negb _); reflexivity.
  - destruct (negb _); reflexivity.
Qed.

(** C7.  After [noteOn], every active sub-voice [v] has the target
    frequency [baseFreq * 2^(offset[v]/12)], where [baseFreq] is the base
    frequency that this [noteOn] has set and the offsets are the row of
    the fixed table of six chords that the chord selection, clamped to
    [0..5], picks; the other sub-voices keep their target.  For the Major
    chord with four voices (at note 60 as at any note) the four targets
    are [baseFreq * 2^(0/12)], [baseFreq * 2^(4/12)],
    [baseFreq * 2^(7/12)] and [baseFreq * 2^(12/12)], the first and the
    last being [baseFreq * 1] and [baseFreq * 2] as [powf] gives
    [2^0 = 1] and [2^1 = 2]. *)
Theorem noteOn_target_frequencies s note vel :
  length (targetFreq s) = 4%nat ->
  let s' := noteOn note vel s in
  let bf := baseFreq (base s') in
  let selection := CLAMP Z.ltb (f_to_int (chordType s)) 0 5 in
  let offsets := chordDefs !!! Z.to_nat selection in
  (forall v, 0 <= v < VOICES -> v < cachedNumVoices s ->
     targetFreq s' !! Z.to_nat v
       = Some (fmul bf (semitones (offsets !!! Z.to_nat v))))
  /\ (forall v, 0 <= v < VOICES -> cachedNumVoices s <= v ->
        targetFreq s' !! Z.to_nat v = targetFreq s !! Z.to_nat v)
  /\ chordDefs = [ [0; 4; 7; 12]; [0; 3; 7; 12]; [0; 5; 7; 12];
                   [0; 7; 12; 19]; [0; 4; 7; 11]; [0; 3; 7; 10] ]
  /\ 0 <= selection <= 5
  /\ (forall ct, f_to_int (chordType s) = ChordType_int ct ->
                 selection = ChordType_int ct)
  /\ (f_to_int (chordType s) < 0 -> selection = 0)
  /\ (5 < f_to_int (chordType s) -> selection = 5)
  /\ (f_to_int (chordType s) = ChordType_int Major ->
      4 <= cachedNumVoices s ->
      targetFreq s' = [ fmul bf (semitones 0); fmul bf (semitones 4);
                        fmul bf (semitones 7); fmul bf (semitones 12) ]
      /\ (semitones 0 = f_lit 1 -> semitones 12 = f_lit 2 ->
          targetFreq s' = [ fmul bf (f_lit 1); fmul bf (semitones 4);
                            fmul bf (semitones 7); fmul bf (f_lit 2) ])).
Proof.
  intros Hlen s' bf selection offsets.
  destruct (targetFreq s) as [|t0 [|t1 [|t2 [|t3 [|]]]]] eqn:Et;
    try discriminate Hlen. clear Hlen.
  assert (Hsel : 0 <= selection <= 5).
  { unfold selection, CLAMP.
    destruct (Z.ltb_spec (f_to_int (chordType s)) 0);
      [lia|destruct (Z.ltb_spec 5 (f_to_int (chordType s))); lia]. }
  (* the targets after the loop, voice by voice *)
  assert (Htf : targetFreq s' =
    [ if 0 <? cachedNumVoices s then fmul bf (semitones (offsets !!! 0%nat))
      else t0;
      if 1 <? cachedNumVoices s then fmul bf (semitones (offsets !!! 1%nat))
      else t1;
      if 2 <? cachedNumVoices s then fmul bf (semitones (offsets !!! 2%nat))
      else t2;
      if 3 <? cachedNumVoices s then fmul bf (semitones (offsets !!! 3%nat))
      else t3 ]).
  { destruct (noteOn_shape note vel s) as (g & s0 & N0 & T0 & C0 & E).
    subst bf s'. rewrite E. cbn zeta. cbn [targetFreq base with_note].
    destruct (voices_frame g
                (chordDefs !!! Z.to_nat (CLAMP Z.ltb (f_to_int (chordType s0)) 0 5))
                [0; 1; 2; 3] s0) as (-> & _).
    rewrite (voices_targetFreq g _ s0 t0 t1 t2 t3) by congruence.
    subst offsets selection. rewrite N0, C0. reflexivity. }
  split; [|split; [|split; [|split; [|split; [|split; [|split]]]]]].
  - intros v Hv Hact. rewrite Htf. unfold VOICES in Hv.
    assert (Hc : v = 0 \/ v = 1 \/ v = 2 \/ v = 3) by lia.
    destruct Hc as [-> | [-> | [-> | ->]]];
      destruct (Z.ltb_spec 0 (cachedNumVoices s)),
               (Z.ltb_spec 1 (cachedNumVoices s)),
               (Z.ltb_spec 2 (cachedNumVoices s)),
               (Z.ltb_spec 3 (cachedNumVoices s));
      try lia; reflexivity.
  - intros v Hv Hact. rewrite Htf. unfold VOICES in Hv.
    assert (Hc : v = 0 \/ v = 1 \/ v = 2 \/ v = 3) by lia.
    destruct Hc as [-> | [-> | [-> | ->]]];
      destruct (Z.ltb_spec 0 (cachedNumVoices s)),
               (Z.ltb_spec 1 (cachedNumVoices s)),
               (Z.ltb_spec 2 (cachedNumVoices s)),
               (Z.ltb_spec 3 (cachedNumVoices s));
      try lia; reflexivity.
  - reflexivity.
  - exact Hsel.
  - intros ct Hct. unfold selection, CLAMP. rewrite Hct.
    destruct ct; reflexivity.
  - intros Hneg. unfold selection, CLAMP.
    destruct (Z.ltb_spec (f_to_int (chordType s)) 0); [reflexivity|lia].
  - intros Hbig. unfold selection, CLAMP.
    destruct (Z.ltb_spec (f_to_int (chordType s)) 0); [lia|].
    destruct (Z.ltb_spec 5 (f_to_int (chordType s))); [reflexivity|lia].
  - intros Hmajor Hfour.
    assert (Hall : targetFreq s' =
      [ fmul bf (semitones 0); fmul bf (semitones 4);
        fmul bf (semitones 7); fmul bf (semitones 12) ]).
    { rewrite Htf. subst offsets selection. unfold CLAMP.
      rewrite Hmajor. cbn [ChordType_int Z.ltb Z.compare].
      destruct (Z.ltb_spec 0 (cachedNumVoices s)); [|lia].
      destruct (Z.ltb_spec 1 (cachedNumVoices s)); [|lia].
      destruct (Z.ltb_spec 2 (cachedNumVoices s)); [|lia].
      destruct (Z.ltb_spec 3 (cachedNumVoices s)); [|lia].
      reflexivity. }
    split; [exact Hall|]. intros E0 E12. rewrite Hall, E0, E12. reflexivity.
Qed.

End ChordProperties.

(** ** The wavetable engine *)

Section WavetableStructure.
Import Wavetable2Engine WavetableSpec.
Context {F B : Type} `{FloatOps F} `{EngineBase F B}.
Variable pow : F -> F -> F.
Variable wavetable_sampleCount : Z.
Variable sampleRate : Z.
Implicit Types (s : State F B) (note : byte).

Local Abbreviation setFreq := (setFreq pow wavetable_sampleCount sampleRate).
Local Abbreviation noteOn := (noteOn pow wavetable_sampleCount sampleRate).
Local Abbreviation picth_changed :=
  (picth_changed pow wavetable_sampleCount sampleRate).

(** The note number in effect after [setFreq]. *)
Lemma setFreq_freqNote note s :
  freqNote (setFreq note s) = if Byte.eqb note x00 then freqNote s else note.
Proof. reflexivity. Qed.

Lemma setFreq_cutoff note s :
  antiAliasCutoff (setFreq note s)
    = cutoff_of_note (note_int (freqNote (setFreq note s))).
Proof. reflexivity. Qed.

Lemma setFreq_filter note s :
  antiAliasFilter (setFreq note s) = antiAliasCutoff (setFreq note s).
Proof. reflexivity. Qed.

Lemma noteOn_cutoff note vel s :
  antiAliasCutoff (noteOn note vel s) = antiAliasCutoff (setFreq note s).
Proof. reflexivity. Qed.

Lemma picth_changed_cutoff value s :
  antiAliasCutoff (picth_changed value s)
    = cutoff_of_note (note_int (freqNote s)).
Proof. reflexivity. Qed.

End WavetableStructure.

Section WavetableProperties.
Import Wavetable2Engine WavetableSpec.
Context {B : Type} `{EngineBase Q B}.
Variable pow : Q -> Q -> Q.
Variable wavetable_sampleCount : Z.
Variable sampleRate : Z.
Implicit Types (s : State Q B) (note : byte).

Local Abbreviation setFreq := (setFreq pow wavetable_sampleCount sampleRate).
Local Abbreviation noteOn := (noteOn pow wavetable_sampleCount sampleRate).
Local Abbreviation picth_changed :=
  (picth_changed pow wavetable_sampleCount sampleRate).

Lemma note_int_range note : 0 <= note_int note <= 255.
Proof.
  unfold note_int. pose proof (Byte.to_N_bounded note). lia.
Qed.

Lemma note_int_onto n : 0 <= n <= 255 -> exists note, note_int note = n.
Proof.
  intros Hn. destruct (Byte.of_N (Z.to_N n)) as [b|] eqn:E.
  - exists b. unfold note_int. apply Byte.to_of_N in E. rewrite E. lia.
  - apply Byte.of_N_None_iff in E. lia.
Qed.

(** Each of the 256 note numbers of a [uint8_t], by evaluation. *)
Lemma cutoff_facts_byte note : cutoff_facts (note_int note).
Proof.
  destruct note; vm_compute;
    (repeat split; intros;
     repeat match goal with
     | E : _ /\ _ |- _ => destruct E
     end;
     first [ reflexivity | discriminate
           | exfalso; match goal with
                      | E : ?x = ?x -> False |- _ => exact (E eq_refl)
                      end ]).
Qed.

Lemma cutoff_facts_range n : 0 <= n <= 255 -> cutoff_facts n.
Proof.
  intros Hn. destruct (note_int_onto n Hn) as [note <-].
  apply cutoff_facts_byte.
Qed.

Lemma cutoff_monotone (k : nat) : forall n,
  0 <= n -> n + Z.of_nat k <= 255 ->
  (cutoff_of_note (n + Z.of_nat k) <= cutoff_of_note n)%Q.
Proof.
  induction k as [|k IH]; intros n Hlo Hhi.
  - replace (n + Z.of_nat 0) with n by lia. apply Qle_refl.
  - replace (n + Z.of_nat (S k)) with (n + Z.of_nat k + 1) by lia.
    apply Qle_trans with (cutoff_of_note (n + Z.of_nat k)).
    + apply cutoff_facts_range. lia.
    + apply IH; lia.
Qed.

(** C8.  The cutoff that [setFreq] computes, on [noteOn] as on a change of
    the pitch parameter, is a function of the note number [n] in effect
    (the note of the call, or the stored note when the call passes 0):
    it lies in [0.15f, 1.0f], is [1.0f] for [n <= 36], is [0.3f] at
    [n = 96], is the unclamped [1 - ((n - 36) / 60) * 0.7] from 36 to 108,
    and of two calls the one at the higher note number has the lower or
    equal cutoff. *)
Theorem antiAlias_cutoff_of_note s note :
  let s' := setFreq note s in
  let n := note_int (freqNote s') in
  freqNote s' = (if Byte.eqb note x00 then freqNote s else note)
  /\ antiAliasFilter s' = antiAliasCutoff s'
  /\ (f_lit (15 # 100) <= antiAliasCutoff s' <= f_lit 1)%Q
  /\ (n <= 36 -> antiAliasCutoff s' = f_lit 1)
  /\ (n = 96 -> antiAliasCutoff s' = f_lit (3 # 10))
  /\ (36 <= n <= 108 -> antiAliasCutoff s' = raw_cutoff n)
  /\ (forall s2 note2,
        n <= note_int (freqNote (setFreq note2 s2)) ->
        (antiAliasCutoff (setFreq note2 s2) <= antiAliasCutoff s')%Q)
  /\ (forall vel, antiAliasCutoff (noteOn note vel s) = antiAliasCutoff s')
  /\ (forall value,
        antiAliasCutoff (picth_changed value s)
          = cutoff_of_note (note_int (freqNote s))).
Proof.
  intros s' n.
  pose proof (note_int_range (freqNote s')) as Hn. fold n in Hn.
  destruct (cutoff_facts_range n Hn) as (Hb & _ & H36 & H96 & Hlin).
  split; [apply setFreq_freqNote|]. split; [apply setFreq_filter|].
  subst s'. rewrite (setFreq_cutoff pow _ _ note s). fold n.
  split; [exact Hb|]. split; [exact H36|]. split; [exact H96|].
  split; [exact Hlin|]. split; [|split].
  - intros s2 note2 Hle. rewrite (setFreq_cutoff pow _ _ note2 s2).
    pose proof (note_int_range (freqNote (setFreq note2 s2))) as Hn2.
    set (n2 := note_int (freqNote (setFreq note2 s2))) in *.
    replace n2 with (n + Z.of_nat (Z.to_nat (n2 - n))) by lia.
    apply cutoff_monotone; lia.
  - intros vel. rewrite noteOn_cutoff. apply setFreq_cutoff.
  - intros value. apply picth_changed_cutoff.
Qed.

End WavetableProperties.

(** ** Concrete runs *)

Section Runs.
Import Envelop EnvelopSpec Tables Standins.

(** *** The envelope generator *)

Lemma next_interpolation_rule_witness :
  (2 <= length attack_hold)%nat
  /\ 0 <= indexRef (mkCursor 0 0)
  /\ next attack_hold (mkCursor 0 0) = (Ok (1 # 4)%Q, mkCursor 1 0)
  /\ next attack_hold (mkCursor 3 0) = (Ok 1%Q, mkCursor 0 1)
  /\ next attack_hold (mkCursor 7 2) = (Ok 0%Q, mkCursor 8 2).
Proof.
  assert (H1 : (2 <= length attack_hold)%nat) by (vm_compute; lia).
  assert (H2 : forall sc i, 0 <= i -> 0 <= indexRef (mkCursor sc i))
    by (intros; assumption).
  split; [exact H1|]. split; [apply H2; lia|].
  split; [|split].
  - destruct (next_interpolation_rule attack_hold (mkCursor 0 0) H1)
      as [Hn _]; [apply H2; lia|].
    destruct Hn as (a & b & Ha & Hb & ->); [vm_compute; reflexivity|].
    vm_compute in Ha, Hb. injection Ha as <-. injection Hb as <-.
    vm_compute. reflexivity.
  - destruct (next_interpolation_rule attack_hold (mkCursor 3 0) H1)
      as [Hn _]; [apply H2; lia|].
    destruct Hn as (a & b & Ha & Hb & ->); [vm_compute; reflexivity|].
    vm_compute in Ha, Hb. injection Ha as <-. injection Hb as <-.
    vm_compute. reflexivity.
  - destruct (next_interpolation_rule attack_hold (mkCursor 7 2) H1)
      as [_ Hn]; [apply H2; lia|].
    rewrite Hn by (vm_compute; discriminate). reflexivity.
Defined.

(** C2 as worded fails: with two hold stages ahead, [release] does not
    stop past the first one (stage 1) but past the second (stage 3). *)
Lemma release_not_past_first_sustain :
  ~ release_past_first_sustain two_holds (mkCursor 0 0).
Proof.
  intros [_ Hscan].
  destruct Hscan as [Hfirst _]; [vm_compute; reflexivity|].
  specialize (Hfirst 1).
  assert (E : release two_holds (mkCursor 0 0) = (Ok tt, mkCursor 0 (1 + 1))).
  { apply Hfirst.
    - vm_compute. split; [discriminate|reflexivity].
    - vm_compute. reflexivity.
    - intros k Hk. cbn [indexRef] in Hk. replace k with 0 by lia.
      vm_compute. reflexivity. }
  vm_compute in E. discriminate E.
Qed.

Lemma release_past_last_sustain_witness :
  (1 <= length two_holds)%nat
  /\ Z.of_nat (length two_holds) <= 2 ^ 31
  /\ 0 <= indexRef (mkCursor 0 0) <= last_index two_holds
  /\ release two_holds (mkCursor 0 0) = (Ok tt, mkCursor 0 (3 + 1))
  /\ release two_holds (mkCursor 9 1) = (Ok tt, mkCursor 0 (1 + 1))
  /\ release two_holds (mkCursor 2 4) = (Ok tt, mkCursor 2 4).
Proof.
  assert (H1 : (1 <= length two_holds)%nat) by (vm_compute; lia).
  assert (H2 : Z.of_nat (length two_holds) <= 2 ^ 31)
    by (vm_compute; discriminate).
  assert (H3 : forall sc i, 0 <= i <= 5 ->
            0 <= indexRef (mkCursor sc i) <= last_index two_holds)
    by (intros; assumption).
  split; [exact H1|]. split; [exact H2|]. split; [apply H3; lia|].
  split; [|split].
  - destruct (release_past_last_sustain two_holds (mkCursor 0 0) H1 H2)
      as [_ Hscan]; [apply H3; lia|].
    destruct Hscan as [Hlast _]; [vm_compute; reflexivity|].
    apply Hlast.
    + vm_compute. split; [discriminate|reflexivity].
    + vm_compute. reflexivity.
    + intros k Hk. change (last_index two_holds) with 5 in Hk.
      replace k with 4 by lia. vm_compute. reflexivity.
  - destruct (release_past_last_sustain two_holds (mkCursor 9 1) H1 H2)
      as [Hsus _]; [apply H3; lia|].
    apply Hsus. vm_compute. reflexivity.
  - destruct (release_past_last_sustain two_holds (mkCursor 2 4) H1 H2)
      as [_ Hscan]; [apply H3; lia|].
    destruct Hscan as [_ Hnone]; [vm_compute; reflexivity|].
    apply Hnone. intros k Hk. cbn [indexRef] in Hk.
    change (last_index two_holds) with 5 in Hk.
    replace k with 4 by lia. vm_compute. reflexivity.
Defined.

(** C3 as worded fails: at the start of the attack [peek] returns 0, the
    value at count 0, and the following [next] returns 1/4, the value at
    count 1. *)
Lemma peek_is_not_next_value :
  ~ peek_is_next_value attack_hold (mkCursor 0 0).
Proof.
  intros [E _]. vm_compute in E. discriminate E.
Qed.

Lemma peek_current_value_witness :
  (2 <= length attack_hold)%nat
  /\ 0 <= indexRef (mkCursor 2 0)
  /\ snd (peek attack_hold (mkCursor 2 0)) = mkCursor 2 0
  /\ fst (peek attack_hold (mkCursor 2 0)) = Ok (1 # 2)%Q
  /\ fst (peek attack_hold (mkCursor 2 1)) = fst (next attack_hold (mkCursor 2 1)).
Proof.
  assert (H1 : (2 <= length attack_hold)%nat) by (vm_compute; lia).
  assert (H2 : forall sc i, 0 <= i -> 0 <= indexRef (mkCursor sc i))
    by (intros; assumption).
  split; [exact H1|]. split; [apply H2; lia|].
  split; [|split].
  - destruct (peek_current_value attack_hold (mkCursor 2 0) H1)
      as (Hc & _); [apply H2; lia|]. exact Hc.
  - destruct (peek_current_value attack_hold (mkCursor 2 0) H1)
      as (_ & Hv & _); [apply H2; lia|].
    destruct Hv as (a & b & Ha & Hb & ->); [vm_compute; reflexivity|].
    vm_compute in Ha, Hb. injection Ha as <-. injection Hb as <-.
    vm_compute. reflexivity.
  - destruct (peek_current_value attack_hold (mkCursor 2 1) H1)
      as (_ & _ & _ & Hn); [apply H2; lia|].
    apply Hn. right. vm_compute. reflexivity.
Defined.

(** C4 as worded fails: the first [next] after [reset] returns 1/4, the
    value at count 1, not the first stage's value 0. *)
Lemma first_next_after_reset_is_not_first_value :
  ~ first_next_after_reset_is_first_value attack_hold.
Proof.
  intros Hclaim.
  specialize (Hclaim (D 0 4) (mkCursor 0 0)).
  assert (E : fst (next attack_hold (snd (reset (mkCursor 0 0))))
              = Ok (modulation (D 0 4))).
  { apply Hclaim; [vm_compute; reflexivity|vm_compute; discriminate]. }
  vm_compute in E. discriminate E.
Qed.

Lemma next_in_first_stage_witness :
  (2 <= length attack_hold)%nat
  /\ stage attack_hold 0 = Some (D 0 4)
  /\ stage attack_hold 1 = Some (D 1 0)
  /\ sampleCount (D 0 4) <> 0
  /\ next attack_hold (snd (reset (mkCursor 17 2)))
     = (Ok (level (D 0 4) (D 1 0) 1), mkCursor 1 0)
  /\ next attack_hold (mkCursor 2 0)
     = (Ok (level (D 0 4) (D 1 0) (uint (2 + 1))), mkCursor (uint (2 + 1)) 0).
Proof.
  assert (H1 : (2 <= length attack_hold)%nat) by (vm_compute; lia).
  assert (H2 : stage attack_hold 0 = Some (D 0 4))
    by (vm_compute; reflexivity).
  assert (H3 : stage attack_hold 1 = Some (D 1 0))
    by (vm_compute; reflexivity).
  assert (H4 : sampleCount (D 0 4) <> 0) by (vm_compute; discriminate).
  split; [exact H1|]. split; [exact H2|]. split; [exact H3|].
  split; [exact H4|]. split.
  - destruct (next_in_first_stage attack_hold (D 0 4) (D 1 0)
                (mkCursor 17 2) H1 H2 H3 H4) as [_ Hr].
    apply Hr. vm_compute. reflexivity.
  - destruct (next_in_first_stage attack_hold (D 0 4) (D 1 0)
                (mkCursor 2 0) H1 H2 H3 H4) as [Hg _].
    apply Hg; vm_compute; reflexivity.
Defined.

(** C9 as worded fails: the constructor builds an object from the empty
    table. *)
Lemma short_table_is_not_rejected :
  ~ short_table_rejected ([] : list (Data Q)).
Proof.
  intros Hclaim. unfold short_table_rejected in Hclaim.
  assert (E : Envelop ([] : list (Data Q)) = ConfigError)
    by (apply Hclaim; cbn; lia).
  discriminate E.
Qed.

Lemma constructor_accepts_any_table_witness :
  0 <= indexRef (mkCursor 5 0) < 2 ^ 32
  /\ Envelop [D 1 3] = Built (mkObject [D 1 3] (mkCursor 0 0))
  /\ fst (next [D 1 3] (mkCursor 5 0)) = Ok (f_lit 0)
  /\ fst (next ([] : list (Data Q)) (mkCursor 5 0)) = OutOfBounds.
Proof.
  assert (H1 : 0 <= indexRef (mkCursor 5 0) < 2 ^ 32)
    by (vm_compute; split; [discriminate|reflexivity]).
  split; [exact H1|].
  destruct (constructor_accepts_any_table [D 1 3] (mkCursor 5 0) H1)
    as (Hb & Hone & _).
  destruct (constructor_accepts_any_table ([] : list (Data Q))
              (mkCursor 5 0) H1) as (_ & _ & Hnone).
  split; [exact Hb|]. split; [apply Hone; reflexivity|].
  apply Hnone; reflexivity.
Defined.

(** C5.  The attack-and-hold table: four calls of [next] reach the hold
    stage, [release] moves the cursor to the last index 2, where
    [isSilent] holds; a second [release] finds a duration of 0 there too
    and moves the cursor to index 3, which is the size of the table, and
    a third [release] reads [data[3]]. *)
Theorem release_at_last_index_leaves_table :
  let c4 := snd ((next attack_hold;; next attack_hold;; next attack_hold;;
                  next attack_hold) (mkCursor 0 0)) in
  let c5 := snd (release attack_hold c4) in
  let c6 := snd (release attack_hold c5) in
  c4 = mkCursor 0 1
  /\ c5 = mkCursor 0 2
  /\ cursor_ok attack_hold c5
  /\ isSilent attack_hold c5 = (Ok true, c5)
  /\ release attack_hold c5 = (Ok tt, mkCursor 0 3)
  /\ ~ cursor_ok attack_hold c6
  /\ release attack_hold c6 = (OutOfBounds, c6).
Proof.
  vm_compute. repeat split; try reflexivity; try discriminate.
  intros [_ Hlt]. discriminate Hlt.
Qed.

(** C10.  Two ramps and a last stage with a duration of its own: the
    fourth call of [next] from the initial state moves the cursor into
    the last stage, which is not a sustain stage, and reads the target of
    [data[3]], one past the end of the table. *)
Theorem next_reads_past_the_end :
  let c3 := snd ((next up_down;; next up_down;; next up_down)
                   (mkCursor 0 0)) in
  (next up_down;; next up_down;; next up_down) (mkCursor 0 0)
    = (Ok (1 # 2)%Q, mkCursor 1 1)
  /\ cursor_ok up_down c3
  /\ next up_down c3 = (OutOfBounds, mkCursor 0 2)
  /\ stage up_down 3 = None.
Proof.
  vm_compute. repeat split; try reflexivity; try discriminate.
Qed.

(** C1.  One ramp into a last stage with a duration of its own, the
    table [{0, 2}, {1, 2}].  The first call of [next] follows the rule,
    [m[0] + (m[1] - m[0]) * (1 / 2)].  The second call has the cursor at
    stage 0, below the last index 1; it finds [t = 2 >= d[0]] and moves
    the cursor to stage 1, which is not a sustain stage, and the rule
    there, [m[1] + (m[2] - m[1]) * (0 / d[1])], reads the target of
    [data[2]], which the table does not have: the call returns no value
    by the rule. *)
Theorem next_rule_reads_outside_entering_last_stage :
  (2 <= length ramp_pair)%nat
  /\ next ramp_pair (mkCursor 0 0) = (Ok (1 # 2)%Q, mkCursor 1 0)
  /\ 0 <= indexRef (mkCursor 1 0) < last_index ramp_pair
  /\ is_sustain ramp_pair 0 = false
  /\ is_sustain ramp_pair 1 = false
  /\ stage ramp_pair 2 = None
  /\ interpolation ramp_pair 1 0 = OutOfBounds
  /\ next ramp_pair (mkCursor 1 0) = (OutOfBounds, mkCursor 0 1).
Proof.
  vm_compute. repeat split; try reflexivity; try discriminate; lia.
Qed.

(** *** The chord engine *)

Lemma held_note_gating_witness :
  let ons := [(x3c, f_lit 1); (x40, f_lit 1); (x43, f_lit 1)] in
  let offs := [(x3c, f_lit 0); (x40, f_lit 0)] in
  let s1 := ChordSpec.noteOns Standins.chord_pow Standins.lcg Standins.lcg_max
              ons Standins.chord_init in
  let s2 := ChordSpec.noteOffs offs s1 in
  0 <= ChordEngine.heldNotes Standins.chord_init
  /\ ChordEngine.heldNotes Standins.chord_init + Z.of_nat (length ons) < 2 ^ 31
  /\ ChordEngine.heldNotes s1 = 3
  /\ ChordEngine.heldNotes s2 = 1
  /\ ChordEngine.base s2 = ChordEngine.base s1
  /\ ChordEngine.base (ChordEngine.noteOff x43 (f_lit 0) s2)
     = Engine_noteOff x43 (f_lit 0) (ChordEngine.base s2).
Proof.
  intros ons offs s1 s2.
  assert (H1 : 0 <= ChordEngine.heldNotes Standins.chord_init)
    by (vm_compute; discriminate).
  assert (H2 : ChordEngine.heldNotes Standins.chord_init
               + Z.of_nat (length ons) < 2 ^ 31)
    by (vm_compute; reflexivity).
  split; [exact H1|]. split; [exact H2|].
  destruct (held_note_gating Standins.chord_pow Standins.lcg Standins.lcg_max
              Standins.chord_init ons offs H1 H2)
    as (E1 & _ & Efew & Elast & _).
  fold s1 in E1, Efew.
  destruct Efew as [E2 E3]; [vm_compute; lia|]. fold s2 in E2, E3.
  split; [rewrite E1; vm_compute; reflexivity|].
  assert (E4 : ChordEngine.heldNotes s2 = 1)
    by (rewrite E2, E1; vm_compute; reflexivity).
  split; [exact E4|]. split; [exact E3|].
  apply Elast. exact E4.
Defined.

Lemma noteOn_target_frequencies_witness :
  let s' := ChordEngine.noteOn Standins.chord_pow Standins.lcg
              Standins.lcg_max x3c (f_lit 1) Standins.chord_init in
  length (ChordEngine.targetFreq Standins.chord_init) = 4%nat
  /\ baseFreq (ChordEngine.base s') = 60%Q
  /\ ChordEngine.targetFreq s' = [60; 80; 12451839 # 131072; 120]%Q.
Proof.
  intros s'.
  assert (H1 : length (ChordEngine.targetFreq Standins.chord_init) = 4%nat)
    by reflexivity.
  split; [exact H1|]. split; [vm_compute; reflexivity|].
  destruct (noteOn_target_frequencies Standins.chord_pow Standins.lcg
              Standins.lcg_max Standins.chord_init x3c (f_lit 1) H1)
    as (_ & _ & _ & _ & _ & _ & _ & Hmajor).
  destruct Hmajor as [-> _];
    [vm_compute; reflexivity|vm_compute; discriminate|].
  vm_compute. reflexivity.
Defined.

(** *** The wavetable engine *)

(** C8 as worded fails at note number 0, which [setFreq] takes to mean
    the stored note: after a note-on at 96 a note-on at 0 computes the
    cutoff of note 96, 0.3, where note numbers up to 36 should have 1.0,
    and a note-on at 1 then has the higher cutoff 1.0. *)
Lemma cutoff_not_by_note_of_call :
  ~ WavetableClaim.cutoff_by_note_of_call
      (Standins.wavetable_noteOn x60 (f_lit 1) Standins.wavetable_init).
Proof.
  intros Hclaim.
  destruct (Hclaim x00 (f_lit 1)) as (_ & Hlow & _).
  assert (E : Wavetable2Engine.antiAliasCutoff
                (Standins.wavetable_noteOn x00 (f_lit 1)
                   (Standins.wavetable_noteOn x60 (f_lit 1)
                      Standins.wavetable_init))
              = f_lit 1)
    by (apply Hlow; vm_compute; discriminate).
  vm_compute in E. discriminate E.
Qed.

End Runs.

(** ** Calls of the envelope generator in a row *)

Section EnvelopRunsProperties.
Import Envelop EnvelopSpec EnvelopRuns.
Context {F : Type} `{FloatOps F}.
Implicit Types (data : list (Data F)) (c : Cursor).

Lemma uint_succ x : uint (uint x + 1) = uint (x + 1).
Proof.
  unfold uint. rewrite Zplus_mod_idemp_l. reflexivity.
Qed.

Lemma ticks_step data n c v c' :
  next data c = (Ok v, c') ->
  ticks data (S n) c = (Ok v :: fst (ticks data n c'), snd (ticks data n c')).
Proof.
  intros E. cbn [ticks]. rewrite E. destruct (ticks data n c'). reflexivity.
Qed.

Lemma next_in_sustain data c a :
  0 <= indexRef c < last_index data ->
  stage data (indexRef c) = Some a -> sampleCount a = 0 ->
  next data c
    = (Ok (modulation a), mkCursor (uint (sampleCountRef c + 1)) (indexRef c)).
Proof.
  intros Hi Ha Hd.
  destruct (next_below_last data c Hi) as (a' & b & Ha' & _ & ->).
  rewrite Ha in Ha'. injection Ha' as <-. rewrite Hd. reflexivity.
Qed.

Lemma release_in_sustain data c a :
  0 <= indexRef c < last_index data ->
  stage data (indexRef c) = Some a -> sampleCount a = 0 ->
  release data c = (Ok tt, mkCursor 0 (uint (indexRef c + 1))).
Proof.
  intros Hi Ha Hd. unfold release, mbind, M_bind, get_indexRef.
  rewrite (isSustain_Some data _ a _ Ha), Hd. reflexivity.
Qed.

(** X1.  A sustain stage holds: with the cursor in a stage of duration 0
    below the last index, any number of calls of [next] return the
    target of that stage and leave the stage index alone, only the sample
    count runs on; [release] after them moves the cursor one stage
    further with the count back at 0. *)
Theorem sustain_holds_until_release data a (n : nat) : forall c,
  0 <= indexRef c < last_index data ->
  stage data (indexRef c) = Some a -> sampleCount a = 0 ->
  fst (ticks data n c) = replicate n (Ok (modulation a))
  /\ indexRef (snd (ticks data n c)) = indexRef c
  /\ uint (sampleCountRef (snd (ticks data n c)))
     = uint (sampleCountRef c + Z.of_nat n)
  /\ release data (snd (ticks data n c))
     = (Ok tt, mkCursor 0 (uint (indexRef c + 1))).
Proof.
  induction n as [|n IH]; intros c Hi Ha Hd.
  - cbn [ticks fst snd replicate]. rewrite Z.add_0_r.
    split; [reflexivity|]. split; [reflexivity|]. split; [reflexivity|].
    apply (release_in_sustain data c a); assumption.
  - rewrite (ticks_step data n c _ _ (next_in_sustain data c a Hi Ha Hd)).
    cbn [fst snd replicate].
    destruct (IH (mkCursor (uint (sampleCountRef c + 1)) (indexRef c)))
      as (E1 & E2 & E3 & E4); [assumption..|].
    cbn [indexRef sampleCountRef] in *.
    rewrite E1, E2, E3, E4. repeat split.
    unfold uint. rewrite Zplus_mod_idemp_l. f_equal. lia.
Qed.

Lemma next_at_last_cursor data c :
  (1 <= length data)%nat -> last_index data <= indexRef c ->
  snd (next data c) = mkCursor (uint (sampleCountRef c + 1)) (indexRef c)
  /\ fst (next data c) = Ok (f_lit 0).
Proof.
  intros Hlen Hge. rewrite next_at_last by assumption. split; reflexivity.
Qed.

(** X2.  Silence is final for [next]: once the index has reached the last
    index, any number of calls of [next] return 0 and leave the index
    where it is, [isSilent] stays true and [peek] returns 0. *)
Theorem silence_is_absorbing data (n : nat) : forall c,
  (1 <= length data)%nat -> last_index data <= indexRef c ->
  fst (ticks data n c) = replicate n (Ok (f_lit 0))
  /\ indexRef (snd (ticks data n c)) = indexRef c
  /\ fst (isSilent data (snd (ticks data n c))) = Ok true
  /\ fst (peek data (snd (ticks data n c))) = Ok (f_lit 0).
Proof.
  induction n as [|n IH]; intros c Hlen Hge.
  - cbn [ticks fst snd replicate].
    split; [reflexivity|]. split; [reflexivity|].
    unfold isSilent, peek, mbind, M_bind, mret, M_ret, get_indexRef.
    rewrite size_minus_1_nonempty by assumption. unfold last_index in Hge.
    destruct (Z.leb_spec (Z.of_nat (length data) - 1) (indexRef c)) as [_|];
      [split; reflexivity|lia].
  - rewrite (ticks_step data n c _ _ (next_at_last data c Hlen Hge)).
    cbn [fst snd replicate].
    destruct (IH (mkCursor (uint (sampleCountRef c + 1)) (indexRef c)))
      as (E1 & E2 & E3 & E4); [assumption..|].
    cbn [indexRef] in E2. rewrite E1, E2, E3, E4. repeat split.
Qed.

Lemma next_in_ramp data c a b :
  0 <= indexRef c < last_index data ->
  stage data (indexRef c) = Some a ->
  stage data (uint (indexRef c + 1)) = Some b ->
  sampleCount a <> 0 ->
  uint (sampleCountRef c + 1) < sampleCount a ->
  next data c
    = (Ok (level a b (uint (sampleCountRef c + 1))),
       mkCursor (uint (sampleCountRef c + 1)) (indexRef c)).
Proof.
  intros Hi Ha Hb Hd Ht.
  destruct (next_below_last data c Hi) as (a' & b' & Ha' & Hb' & ->).
  rewrite Ha in Ha'. injection Ha' as <-.
  rewrite Hb in Hb'. injection Hb' as <-.
  destruct (Z.eqb_spec (sampleCount a) 0) as [|_]; [contradiction|].
  destruct (Z.ltb_spec (uint (sampleCountRef c + 1)) (sampleCount a))
    as [_|]; [reflexivity|lia].
Qed.

Lemma next_leaves_ramp data c a :
  0 <= indexRef c < last_index data ->
  stage data (indexRef c) = Some a ->
  sampleCount a <> 0 ->
  sampleCount a <= uint (sampleCountRef c + 1) ->
  snd (next data c) = mkCursor 0 (uint (indexRef c + 1)).
Proof.
  intros Hi Ha Hd Ht.
  destruct (next_below_last data c Hi) as (a' & b' & Ha' & Hb' & ->).
  rewrite Ha in Ha'. injection Ha' as <-.
  destruct (Z.eqb_spec (sampleCount a) 0) as [|_]; [contradiction|].
  destruct (Z.ltb_spec (uint (sampleCountRef c + 1)) (sampleCount a))
    as [|_]; [lia|].
  destruct (sampleCount b' =? 0); reflexivity.
Qed.

Lemma ticks_in_ramp data a b i (k : nat) : forall t0,
  0 <= i < last_index data ->
  stage data i = Some a -> stage data (uint (i + 1)) = Some b ->
  0 <= t0 -> t0 + Z.of_nat k < sampleCount a -> sampleCount a <= 2 ^ 32 ->
  ticks data k (mkCursor t0 i)
    = ((fun t => Ok (level a b t)) <$> seqZ (t0 + 1) (Z.of_nat k),
       mkCursor (t0 + Z.of_nat k) i).
Proof.
  induction k as [|k IH]; intros t0 Hi Ha Hb Ht0 Hk Hd.
  - cbn [ticks]. rewrite Z.add_0_r. reflexivity.
  - assert (Hu : uint (t0 + 1) = t0 + 1) by (apply uint_small; lia).
    rewrite (ticks_step data k _ (level a b (t0 + 1)) (mkCursor (t0 + 1) i)).
    + rewrite (IH (t0 + 1)) by (assumption || lia). cbn [fst snd].
      rewrite Nat2Z.inj_succ.
      rewrite (seqZ_cons (t0 + 1) (Z.succ (Z.of_nat k))) by lia.
      rewrite fmap_cons, Z.pred_succ.
      replace (Z.succ (t0 + 1)) with (t0 + 1 + 1) by lia.
      replace (t0 + Z.succ (Z.of_nat k)) with (t0 + 1 + Z.of_nat k) by lia.
      reflexivity.
    + rewrite (next_in_ramp data (mkCursor t0 i) a b);
        cbn [indexRef sampleCountRef]; rewrite ?Hu;
        (assumption || lia || reflexivity).
Qed.

Lemma ticks_one_cursor data c : snd (ticks data 1 c) = snd (next data c).
Proof.
  cbn [ticks]. destruct (next data c) as [[v| |] c']; reflexivity.
Qed.

Lemma ticks_app data (m k : nat) : forall c,
  all_ok (fst (ticks data m c)) -> length (fst (ticks data m c)) = m ->
  ticks data (m + k) c
    = (fst (ticks data m c) ++ fst (ticks data k (snd (ticks data m c))),
       snd (ticks data k (snd (ticks data m c)))).
Proof.
  induction m as [|m IH]; intros c Hok Hlen.
  - cbn [ticks fst snd Nat.add app]. destruct (ticks data k c); reflexivity.
  - cbn [Nat.add]. cbn [ticks] in Hok, Hlen |- *.
    destruct (next data c) as [[v| |] c'] eqn:E.
    + destruct (ticks data m c') as [rs c''] eqn:E2.
      cbn [fst snd length] in Hok, Hlen |- *.
      specialize (IH c'). rewrite E2 in IH. cbn [fst snd] in IH.
      rewrite IH; [reflexivity|inversion Hok; assumption|lia].
    + cbn [fst] in Hok. inversion Hok as [|? ? [v Hv] _]. discriminate Hv.
    + cbn [fst] in Hok. inversion Hok as [|? ? [v Hv] _]. discriminate Hv.
Qed.

(** X3.  A stage of duration [d] lasts exactly [d] calls: from the start
    of a stage [i] below the last index (sample count 0), the first [k]
    calls of [next], for [k < d], return the interpolated values at the
    counts 1 to [k] and keep the cursor in the stage, and the call number
    [d] moves the cursor to stage [i+1] with the count back at 0. *)
Theorem stage_lasts_its_duration data a b i (k : nat) :
  0 <= i < last_index data ->
  stage data i = Some a -> stage data (uint (i + 1)) = Some b ->
  0 < sampleCount a < 2 ^ 32 ->
  Z.of_nat k < sampleCount a ->
  ticks data k (mkCursor 0 i)
    = ((fun t => Ok (level a b t)) <$> seqZ 1 (Z.of_nat k),
       mkCursor (Z.of_nat k) i)
  /\ snd (ticks data (Z.to_nat (sampleCount a)) (mkCursor 0 i))
     = mkCursor 0 (uint (i + 1)).
Proof.
  intros Hi Ha Hb Hd Hk. split.
  - apply (ticks_in_ramp data a b i k 0); assumption || lia.
  - set (m := Z.to_nat (sampleCount a - 1)).
    replace (Z.to_nat (sampleCount a)) with (m + 1)%nat by lia.
    assert (Hrun : ticks data m (mkCursor 0 i)
              = ((fun t => Ok (level a b t)) <$> seqZ 1 (Z.of_nat m),
                 mkCursor (Z.of_nat m) i))
      by (apply (ticks_in_ramp data a b i m 0); assumption || lia).
    rewrite ticks_app; rewrite Hrun; cbn [fst snd].
    + rewrite ticks_one_cursor.
      apply (next_leaves_ramp data (mkCursor (Z.of_nat m) i) a);
        cbn [indexRef sampleCountRef]; try assumption; try lia.
      rewrite uint_small by lia. lia.
    + apply Forall_fmap, Forall_forall. intros t _. eexists. reflexivity.
    + rewrite length_fmap, length_seqZ. lia.
Qed.



Lemma next_index_nonneg data c :
  (2 <= length data)%nat -> 0 <= indexRef c ->
  0 <= indexRef (snd (next data c)).
Proof.
  intros Hlen Hi.
  destruct (Z.lt_ge_cases (indexRef c) (last_index data)) as [Hlt|Hge].
  - assert (Hc : cursor_ok data c)
      by (unfold cursor_ok; unfold last_index in Hlt; lia).
    apply (cursor_ok_next data c Hlen Hc).
  - rewrite next_at_last by (assumption || lia). exact Hi.
Qed.

(** X5.  A table that ends in a stage of duration 0 is never read
    outside: with 2 to [2^32] stages and a last stage of duration 0, any
    number of calls of [next], from any cursor, return a value each. *)
Theorem next_never_reads_outside data (n : nat) : forall c,
  (2 <= length data)%nat -> Z.of_nat (length data) <= 2 ^ 32 ->
  is_sustain data (last_index data) = true ->
  0 <= indexRef c ->
  all_ok (fst (ticks data n c)) /\ length (fst (ticks data n c)) = n.
Proof.
  induction n as [|n IH]; intros c Hlen Hsize Hlast Hi.
  - cbn [ticks fst length]. split; [constructor|reflexivity].
  - destruct (next_in_bounds_when_last_holds data c Hlen Hsize Hlast Hi)
      as [v Hv].
    pose proof (next_index_nonneg data c Hlen Hi) as Hi'.
    cbn [ticks]. destruct (next data c) as [r c'] eqn:E.
    cbn [fst snd] in Hv, Hi'. subst r.
    destruct (IH c' Hlen Hsize Hlast Hi') as [Hok Hn].
    destruct (ticks data n c') as [rs c'']. cbn [fst length] in *.
    split; [|lia]. constructor; [eexists; reflexivity|assumption].
Qed.

(** X6.  [peek] reads back what [next] has just returned: in a table
    whose durations are not negative, when a call of [next] leaves the
    cursor below the last index, [peek] on that cursor returns the
    outcome of that call. *)
Theorem peek_after_next data c :
  (2 <= length data)%nat -> 0 <= indexRef c ->
  Forall (fun d => 0 <= sampleCount d) data ->
  indexRef (snd (next data c)) < last_index data ->
  fst (peek data (snd (next data c))) = fst (next data c).
Proof.
  intros Hlen Hi Hdur Hafter.
  assert (Hpos : forall j d, stage data j = Some d -> 0 <= sampleCount d).
  { intros j d Hj. unfold stage in Hj.
    destruct (j <? 0); [discriminate|].
    rewrite Forall_lookup in Hdur. exact (Hdur _ _ Hj). }
  assert (Hpeek : forall c', 0 <= indexRef c' < last_index data ->
    exists a, stage data (indexRef c') = Some a /\
      fst (peek data c') =
        if sampleCount a =? 0 then Ok (modulation a)
        else if sampleCount a <=? sampleCountRef c'
             then match stage data (uint (indexRef c' + 1)) with
                  | Some b => Ok (modulation b)
                  | None => OutOfBounds
                  end
             else interpolation data (indexRef c') (sampleCountRef c')).
  { intros c' Hc'. unfold last_index in Hc'.
    destruct (stage_inside data (indexRef c')) as [a Ha]; [lia|].
    destruct (stage_next_inside data (indexRef c')) as [b Hb]; [lia|].
    exists a. split; [exact Ha|].
    unfold peek, mbind, M_bind, mret, M_ret, get_indexRef, get_sampleCountRef.
    rewrite size_minus_1_nonempty by lia.
    destruct (Z.leb_spec (Z.of_nat (length data) - 1) (indexRef c'))
      as [|_]; [lia|].
    rewrite (isSustain_Some data _ a _ Ha).
    destruct (sampleCount a =? 0);
      rewrite (at_Some data _ a _ Ha); [reflexivity|].
    destruct (sampleCount a <=? sampleCountRef c').
    - assert (Hin : uint (indexRef c' + 1) < Z.of_nat (length data)).
      { destruct (Z.lt_ge_cases (uint (indexRef c' + 1))
                    (Z.of_nat (length data))) as [|Hout]; [assumption|].
        rewrite (stage_outside data _ Hout) in Hb. discriminate. }
      destruct (Z.ltb_spec (uint (indexRef c' + 1)) (Z.of_nat (length data)))
        as [_|]; [|lia].
      rewrite (at_Some data _ b _ Hb), Hb. reflexivity.
    - rewrite env_interpolation. reflexivity. }
  destruct (Z.lt_ge_cases (indexRef c) (last_index data)) as [Hlt|Hge].
  - destruct (next_below_last data c) as (a & b & Ha & Hb & E); [lia|].
    rewrite E in Hafter |- *.
    destruct (Z.eqb_spec (sampleCount a) 0) as [Ea|Ea].
    + cbn [fst snd indexRef] in *.
      destruct (Hpeek (mkCursor (uint (sampleCountRef c + 1)) (indexRef c)))
        as (a' & Ha' & ->); [cbn; lia|].
      cbn [indexRef] in Ha'. rewrite Ha in Ha'. injection Ha' as <-.
      rewrite Ea. reflexivity.
    + destruct (Z.ltb_spec (uint (sampleCountRef c + 1)) (sampleCount a))
        as [Ht|Ht].
      * cbn [fst snd indexRef] in *.
        destruct (Hpeek (mkCursor (uint (sampleCountRef c + 1)) (indexRef c)))
          as (a' & Ha' & ->); [cbn; lia|].
        cbn [indexRef sampleCountRef] in *.
        rewrite Ha in Ha'. injection Ha' as <-.
        destruct (Z.eqb_spec (sampleCount a) 0) as [|_]; [contradiction|].
        destruct (Z.leb_spec (sampleCount a) (uint (sampleCountRef c + 1)))
          as [|_]; [lia|].
        unfold interpolation. rewrite Ha, Hb. reflexivity.
      * pose proof (uint_range (indexRef c + 1)) as Hr.
        assert (Hcase : forall r,
          indexRef (snd (r, mkCursor 0 (uint (indexRef c + 1))))
            < last_index data ->
          r = (if sampleCount b =? 0 then Ok (modulation b)
               else interpolation data (uint (indexRef c + 1)) 0) ->
          fst (peek data (snd (r, mkCursor 0 (uint (indexRef c + 1)))))
            = fst (r, mkCursor 0 (uint (indexRef c + 1)))).
        { intros r Hr' ->. cbn [fst snd indexRef] in *.
          destruct (Hpeek (mkCursor 0 (uint (indexRef c + 1))))
            as (b' & Hb' & ->); [cbn; lia|].
          cbn [indexRef sampleCountRef] in *.
          rewrite Hb in Hb'. injection Hb' as <-.
          destruct (Z.eqb_spec (sampleCount b) 0) as [|Eb]; [reflexivity|].
          pose proof (Hpos _ _ Hb).
          destruct (Z.leb_spec (sampleCount b) 0) as [|_]; [lia|].
          reflexivity. }
        destruct (sampleCount b =? 0); apply Hcase;
          (exact Hafter || reflexivity).
  - rewrite next_at_last in Hafter by (assumption || lia).
    cbn [snd indexRef] in Hafter. lia.
Qed.

(** *** [release] below the last index *)

Lemma release_unfold data c :
  Z.of_nat (length data) <= 2 ^ 31 ->
  0 <= indexRef c <= last_index data ->
  release data c =
    if is_sustain data (indexRef c)
    then (Ok tt, mkCursor 0 (indexRef c + 1))
    else release_loop data (length data) (indexRef c) c.
Proof.
  intros Hsize Hi. unfold last_index in Hi.
  unfold release, mbind, M_bind, get_indexRef.
  rewrite isSustain_is_sustain by lia.
  destruct (is_sustain data (indexRef c)).
  - rewrite setNextPhase_eq. rewrite uint_small by lia. reflexivity.
  - rewrite sint_small by lia. reflexivity.
Qed.

Lemma release_loop_result data (fuel : nat) : forall i c,
  Z.of_nat (length data) <= 2 ^ 31 ->
  0 <= i <= last_index data ->
  last_index data - i <= Z.of_nat fuel ->
  exists c', release_loop data fuel i c = (Ok tt, c')
    /\ ((c' = c
         /\ forall k, i <= k < last_index data -> is_sustain data k = false)
        \/ (sampleCountRef c' = 0
            /\ i < indexRef c' <= last_index data
            /\ is_sustain data (indexRef c' - 1) = true
            /\ forall k, indexRef c' <= k < last_index data ->
                         is_sustain data k = false)).
Proof.
  induction fuel as [|fuel IH]; intros i c Hsize Hi Hfuel.
  - exists c. split.
    + apply release_loop_exit; unfold last_index in *; lia.
    + left. split; [reflexivity|]. intros k Hk. lia.
  - destruct (Z.eq_dec i (last_index data)) as [E|E].
    + exists c. split.
      * apply release_loop_exit; unfold last_index in *; lia.
      * left. split; [reflexivity|]. intros k Hk. lia.
    + rewrite release_loop_step by (assumption || lia).
      destruct (IH (i + 1)
                  (if is_sustain data i then mkCursor 0 (i + 1) else c))
        as (c' & -> & Hc'); [assumption|lia|lia|].
      exists c'. split; [reflexivity|].
      destruct Hc' as [[-> Hnone]|(Hsc & Hidx & Hsus & Hnone)].
      * destruct (is_sustain data i) eqn:Ei.
        -- right. cbn [sampleCountRef indexRef].
           replace (i + 1 - 1) with i by lia.
           repeat split; try assumption; lia.
        -- left. split; [reflexivity|]. intros k Hk.
           destruct (Z.eq_dec k i) as [->|]; [assumption|].
           apply Hnone. lia.
      * right. repeat split; try assumption; lia.
Qed.

(** X7.  [release] below the last index: in a table of 2 to [2^31]
    stages it reads inside the table, never moves the cursor back and
    never past the last index; when it moves the cursor, the sample count
    is 0 and the stage just left behind is a sustain stage; and from a
    stage that is not a sustain stage it leaves no sustain stage between
    the cursor and the terminal stage, so the envelope runs out without
    another [release]. *)
Theorem release_below_last data c :
  (2 <= length data)%nat -> Z.of_nat (length data) <= 2 ^ 31 ->
  0 <= indexRef c < last_index data ->
  exists c',
    release data c = (Ok tt, c')
    /\ indexRef c <= indexRef c' <= last_index data
    /\ (c' = c
        \/ (sampleCountRef c' = 0 /\ indexRef c < indexRef c'
            /\ is_sustain data (indexRef c' - 1) = true))
    /\ (is_sustain data (indexRef c) = false ->
        forall k, indexRef c' <= k < last_index data ->
                  is_sustain data k = false).
Proof.
  intros Hlen Hsize Hi. rewrite release_unfold by (assumption || lia).
  destruct (is_sustain data (indexRef c)) eqn:Es.
  - eexists. split; [reflexivity|]. cbn [indexRef sampleCountRef].
    split; [lia|]. split; [|discriminate].
    right. replace (indexRef c + 1 - 1) with (indexRef c) by lia.
    repeat split; (assumption || lia).
  - destruct (release_loop_result data (length data) (indexRef c) c)
      as (c' & -> & Hc'); [assumption|lia|unfold last_index; lia|].
    exists c'. split; [reflexivity|].
    destruct Hc' as [[-> Hnone]|(Hsc & Hidx & Hsus & Hnone)].
    + split; [lia|]. split; [left; reflexivity|]. intros _. exact Hnone.
    + split; [lia|]. split; [|intros _; exact Hnone].
      right. repeat split; (assumption || lia).
Qed.

(** X8.  From a stage that is not a sustain stage, a second [release]
    changes nothing, as long as the first one left the cursor below the
    last index. *)
Theorem release_twice data c :
  (2 <= length data)%nat -> Z.of_nat (length data) <= 2 ^ 31 ->
  0 <= indexRef c < last_index data ->
  is_sustain data (indexRef c) = false ->
  indexRef (snd (release data c)) < last_index data ->
  release data (snd (release data c)) = (Ok tt, snd (release data c)).
Proof.
  intros Hlen Hsize Hi Es.
  rewrite (release_unfold data c) by (assumption || lia). rewrite Es.
  destruct (release_loop_result data (length data) (indexRef c) c)
    as (c' & -> & Hc'); [assumption|lia|unfold last_index; lia|].
  cbn [snd]. intros Hbelow.
  assert (Hnone : forall k, indexRef c' <= k < last_index data ->
                            is_sustain data k = false).
  { destruct Hc' as [[-> Hnone]|(_ & _ & _ & Hnone)]; exact Hnone. }
  assert (Hidx : 0 <= indexRef c' < last_index data).
  { destruct Hc' as [[-> _]|(_ & Hidx & _)]; lia. }
  rewrite release_unfold by (assumption || lia).
  rewrite (Hnone (indexRef c')) by lia.
  apply release_loop_none; try assumption; try lia.
  unfold last_index. lia.
Qed.

End EnvelopRunsProperties.

Section EnvelopRunsWitnesses.
Import Envelop EnvelopSpec EnvelopRuns Tables.

Lemma sustain_holds_until_release_witness :
  0 <= indexRef (mkCursor 0 1) < last_index attack_hold
  /\ stage attack_hold (indexRef (mkCursor 0 1)) = Some (D 1 0)
  /\ sampleCount (D 1 0) = 0
  /\ fst (ticks attack_hold 3 (mkCursor 0 1)) = [Ok 1%Q; Ok 1%Q; Ok 1%Q]
  /\ release attack_hold (snd (ticks attack_hold 3 (mkCursor 0 1)))
     = (Ok tt, mkCursor 0 2).
Proof.
  assert (H1 : 0 <= indexRef (mkCursor 0 1) < last_index attack_hold)
    by (vm_compute; split; [discriminate|reflexivity]).
  assert (H2 : stage attack_hold (indexRef (mkCursor 0 1)) = Some (D 1 0))
    by (vm_compute; reflexivity).
  assert (H3 : sampleCount (D 1 0) = 0) by reflexivity.
  split; [exact H1|]. split; [exact H2|]. split; [exact H3|].
  destruct (sustain_holds_until_release attack_hold (D 1 0) 3
              (mkCursor 0 1) H1 H2 H3) as (-> & _ & _ & ->).
  split; vm_compute; reflexivity.
Defined.

Lemma silence_is_absorbing_witness :
  (1 <= length attack_hold)%nat
  /\ last_index attack_hold <= indexRef (mkCursor 5 2)
  /\ fst (ticks attack_hold 2 (mkCursor 5 2)) = [Ok 0%Q; Ok 0%Q]
  /\ indexRef (snd (ticks attack_hold 2 (mkCursor 5 2))) = 2.
Proof.
  assert (H1 : (1 <= length attack_hold)%nat) by (vm_compute; lia).
  assert (H2 : last_index attack_hold <= indexRef (mkCursor 5 2))
    by (vm_compute; discriminate).
  split; [exact H1|]. split; [exact H2|].
  destruct (silence_is_absorbing attack_hold 2 (mkCursor 5 2) H1 H2)
    as (-> & -> & _).
  split; vm_compute; reflexivity.
Defined.

Lemma stage_lasts_its_duration_witness :
  0 <= 0 < last_index attack_hold
  /\ stage attack_hold 0 = Some (D 0 4)
  /\ stage attack_hold (uint (0 + 1)) = Some (D 1 0)
  /\ 0 < sampleCount (D 0 4) < 2 ^ 32
  /\ Z.of_nat 3 < sampleCount (D 0 4)
  /\ ticks attack_hold 3 (mkCursor 0 0)
     = ([Ok (1 # 4)%Q; Ok (1 # 2)%Q; Ok (3 # 4)%Q], mkCursor 3 0)
  /\ snd (ticks attack_hold 4 (mkCursor 0 0)) = mkCursor 0 1.
Proof.
  assert (H1 : 0 <= 0 < last_index attack_hold)
    by (vm_compute; split; [discriminate|reflexivity]).
  assert (H2 : stage attack_hold 0 = Some (D 0 4))
    by (vm_compute; reflexivity).
  assert (H3 : stage attack_hold (uint (0 + 1)) = Some (D 1 0))
    by (vm_compute; reflexivity).
  assert (H4 : 0 < sampleCount (D 0 4) < 2 ^ 32)
    by (vm_compute; split; reflexivity).
  assert (H5 : Z.of_nat 3 < sampleCount (D 0 4)) by (vm_compute; reflexivity).
  split; [exact H1|]. split; [exact H2|]. split; [exact H3|].
  split; [exact H4|]. split; [exact H5|].
  destruct (stage_lasts_its_duration attack_hold (D 0 4) (D 1 0) 0 3
              H1 H2 H3 H4 H5) as [-> E].
  split; [vm_compute; reflexivity|].
  change (Z.to_nat (sampleCount (D 0 4))) with 4%nat in E. rewrite E.
  vm_compute. reflexivity.
Defined.


Lemma next_never_reads_outside_witness :
  (2 <= length attack_hold)%nat
  /\ Z.of_nat (length attack_hold) <= 2 ^ 32
  /\ is_sustain attack_hold (last_index attack_hold) = true
  /\ 0 <= indexRef (mkCursor 0 0)
  /\ all_ok (fst (ticks attack_hold 9 (mkCursor 0 0)))
  /\ length (fst (ticks attack_hold 9 (mkCursor 0 0))) = 9%nat.
Proof.
  assert (H1 : (2 <= length attack_hold)%nat) by (vm_compute; lia).
  assert (H2 : Z.of_nat (length attack_hold) <= 2 ^ 32)
    by (vm_compute; discriminate).
  assert (H3 : is_sustain attack_hold (last_index attack_hold) = true)
    by (vm_compute; reflexivity).
  assert (H4 : 0 <= indexRef (mkCursor 0 0)) by (vm_compute; discriminate).
  split; [exact H1|]. split; [exact H2|]. split; [exact H3|].
  split; [exact H4|].
  exact (next_never_reads_outside attack_hold 9 (mkCursor 0 0) H1 H2 H3 H4).
Defined.

Lemma peek_after_next_witness :
  (2 <= length attack_hold)%nat
  /\ 0 <= indexRef (mkCursor 0 0)
  /\ Forall (fun d => 0 <= sampleCount d) attack_hold
  /\ indexRef (snd (next attack_hold (mkCursor 0 0))) < last_index attack_hold
  /\ fst (peek attack_hold (snd (next attack_hold (mkCursor 0 0))))
     = fst (next attack_hold (mkCursor 0 0)).
Proof.
  assert (H1 : (2 <= length attack_hold)%nat) by (vm_compute; lia).
  assert (H2 : 0 <= indexRef (mkCursor 0 0)) by (vm_compute; discriminate).
  assert (H3 : Forall (fun d => 0 <= sampleCount d) attack_hold)
    by (repeat constructor; vm_compute; discriminate).
  assert (H4 : indexRef (snd (next attack_hold (mkCursor 0 0)))
               < last_index attack_hold) by (vm_compute; reflexivity).
  split; [exact H1|]. split; [exact H2|]. split; [exact H3|].
  split; [exact H4|].
  exact (peek_after_next attack_hold (mkCursor 0 0) H1 H2 H3 H4).
Defined.

Lemma release_below_last_witness :
  (2 <= length two_holds)%nat
  /\ Z.of_nat (length two_holds) <= 2 ^ 31
  /\ 0 <= indexRef (mkCursor 2 0) < last_index two_holds
  /\ exists c',
       release two_holds (mkCursor 2 0) = (Ok tt, c')
       /\ indexRef (mkCursor 2 0) <= indexRef c' <= last_index two_holds
       /\ (c' = mkCursor 2 0
           \/ (sampleCountRef c' = 0 /\ indexRef (mkCursor 2 0) < indexRef c'
               /\ is_sustain two_holds (indexRef c' - 1) = true))
       /\ (is_sustain two_holds (indexRef (mkCursor 2 0)) = false ->
           forall k, indexRef c' <= k < last_index two_holds ->
                     is_sustain two_holds k = false).
Proof.
  assert (H1 : (2 <= length two_holds)%nat) by (vm_compute; lia).
  assert (H2 : Z.of_nat (length two_holds) <= 2 ^ 31)
    by (vm_compute; discriminate).
  assert (H3 : 0 <= indexRef (mkCursor 2 0) < last_index two_holds)
    by (vm_compute; split; [discriminate|reflexivity]).
  split; [exact H1|]. split; [exact H2|]. split; [exact H3|].
  exact (release_below_last two_holds (mkCursor 2 0) H1 H2 H3).
Defined.

Lemma release_twice_witness :
  (2 <= length two_holds)%nat
  /\ Z.of_nat (length two_holds) <= 2 ^ 31
  /\ 0 <= indexRef (mkCursor 2 0) < last_index two_holds
  /\ is_sustain two_holds (indexRef (mkCursor 2 0)) = false
  /\ indexRef (snd (release two_holds (mkCursor 2 0))) < last_index two_holds
  /\ release two_holds (snd (release two_holds (mkCursor 2 0)))
     = (Ok tt, snd (release two_holds (mkCursor 2 0))).
Proof.
  assert (H1 : (2 <= length two_holds)%nat) by (vm_compute; lia).
  assert (H2 : Z.of_nat (length two_holds) <= 2 ^ 31)
    by (vm_compute; discriminate).
  assert (H3 : 0 <= indexRef (mkCursor 2 0) < last_index two_holds)
    by (vm_compute; split; [discriminate|reflexivity]).
  assert (H4 : is_sustain two_holds (indexRef (mkCursor 2 0)) = false)
    by (vm_compute; reflexivity).
  assert (H5 : indexRef (snd (release two_holds (mkCursor 2 0)))
               < last_index two_holds) by (vm_compute; reflexivity).
  split; [exact H1|]. split; [exact H2|]. split; [exact H3|].
  split; [exact H4|]. split; [exact H5|].
  exact (release_twice two_holds (mkCursor 2 0) H1 H2 H3 H4 H5).
Defined.

End EnvelopRunsWitnesses.

(** ** More of the chord engine *)

Section ChordMoreProperties.
Import ChordEngine ChordSpec ChordParams.
Context {F B : Type} `{FloatOps F} `{EngineBase F B}.
Variable powf : F -> F -> F.
Variable rand : Z -> Z * Z.
Variable RAND_MAX : Z.
Implicit Types (s : State F B) (note : byte) (vel : F).

Local Abbreviation noteOn := (noteOn powf rand RAND_MAX).
Local Abbreviation setVoice := (setVoice powf rand RAND_MAX).
Local Abbreviation semitones := (semitones powf).

(** [noteOn] spelled out around its loop. *)
Lemma noteOn_unfold note vel s :
  noteOn note vel s =
    let g := shouldGlide note s in
    let s0 :=
      with_base
        (setBaseFreq (body s) (Some note)
           (if negb g then Engine_noteOn note vel (base s) else base s))
        (with_velocity vel s) in
    let sL :=
      fold_left
        (setVoice g
           (chordDefs !!! Z.to_nat (CLAMP Z.ltb (f_to_int (chordType s)) 0 5)))
        [0; 1; 2; 3] s0 in
    with_note note (sint (heldNotes sL + 1)) sL.
Proof.
  unfold ChordEngine.noteOn, shouldGlide.
  change (Z.of_nat (length chordDefs) - 1) with 5.
  cbn [glideEnabled lastNote base with_velocity].
  set (g := glideEnabled s && negb (Byte.eqb note (lastNote s))
            && fltb (f_lit (1 # 100)) (envelopAmp_get (base s))).
  destruct (negb g); reflexivity.
Qed.

(** One round of the loop, on the current frequencies and the phases. *)
Lemma setVoice_arrays g offsets s v :
  0 <= v ->
  let snap :=
    (v <? cachedNumVoices s)
    && (negb g || feqb (default (f_lit 0) (currentFreq s !! Z.to_nat v))
                       (f_lit 0)) in
  currentFreq (setVoice g offsets s v) =
    (if snap
     then <[Z.to_nat v :=
              fmul (baseFreq (base s)) (semitones (offsets !!! Z.to_nat v))]>
            (currentFreq s)
     else currentFreq s)
  /\ exists r,
       phases (setVoice g offsets s v) =
         if snap then <[Z.to_nat v := r]> (phases s) else phases s.
Proof.
  intros Hv snap. subst snap. unfold ChordEngine.setVoice.
  destruct (v <? cachedNumVoices s); cbn [andb currentFreq phases].
  - destruct (negb g || _); (split; [reflexivity|]);
      [eexists; reflexivity|exists (f_lit 0); reflexivity].
  - split; [reflexivity|]. exists (f_lit 0). reflexivity.
Qed.

Lemma if_insert_4 {A : Type} (b : bool) (x l0 l1 l2 l3 : A) :
  (if b then <[0%nat := x]> [l0; l1; l2; l3] else [l0; l1; l2; l3])
    = [if b then x else l0; l1; l2; l3]
  /\ (if b then <[1%nat := x]> [l0; l1; l2; l3] else [l0; l1; l2; l3])
     = [l0; if b then x else l1; l2; l3]
  /\ (if b then <[2%nat := x]> [l0; l1; l2; l3] else [l0; l1; l2; l3])
     = [l0; l1; if b then x else l2; l3]
  /\ (if b then <[3%nat := x]> [l0; l1; l2; l3] else [l0; l1; l2; l3])
     = [l0; l1; l2; if b then x else l3].
Proof. destruct b; repeat split. Qed.

Lemma voices_arrays g offsets s c0 c1 c2 c3 p0 p1 p2 p3 :
  currentFreq s = [c0; c1; c2; c3] -> phases s = [p0; p1; p2; p3] ->
  let target v :=
    fmul (baseFreq (base s)) (semitones (offsets !!! Z.to_nat v)) in
  let snap v cv :=
    (v <? cachedNumVoices s) && (negb g || feqb cv (f_lit 0)) in
  let sL := fold_left (setVoice g offsets) [0; 1; 2; 3] s in
  currentFreq sL =
    [ if snap 0 c0 then target 0 else c0; if snap 1 c1 then target 1 else c1;
      if snap 2 c2 then target 2 else c2; if snap 3 c3 then target 3 else c3 ]
  /\ exists r0 r1 r2 r3,
       phases sL =
         [ if snap 0 c0 then r0 else p0; if snap 1 c1 then r1 else p1;
           if snap 2 c2 then r2 else p2; if snap 3 c3 then r3 else p3 ].
Proof.
  intros Ec Ep target snap sL. subst sL. cbn [fold_left].
  set (s1 := setVoice g offsets s 0).
  set (s2 := setVoice g offsets s1 1).
  set (s3 := setVoice g offsets s2 2).
  destruct (setVoice_frame powf rand RAND_MAX g offsets s 0)
    as (B1 & _ & N1 & _). fold s1 in B1, N1.
  destruct (setVoice_frame powf rand RAND_MAX g offsets s1 1)
    as (B2 & _ & N2 & _). fold s2 in B2, N2. rewrite B1 in B2. rewrite N1 in N2.
  destruct (setVoice_frame powf rand RAND_MAX g offsets s2 2)
    as (B3 & _ & N3 & _). fold s3 in B3, N3. rewrite B2 in B3. rewrite N2 in N3.
  destruct (setVoice_arrays g offsets s 0) as (C1 & r0 & P1); [lia|].
  fold s1 in C1, P1. rewrite Ec in C1, P1. rewrite Ep in P1.
  destruct (if_insert_4 (snap 0 c0) (target 0) c0 c1 c2 c3) as (I & _).
  destruct (if_insert_4 (snap 0 c0) r0 p0 p1 p2 p3) as (J & _).
  pose proof (eq_trans C1 I) as C1'. pose proof (eq_trans P1 J) as P1'.
  clear C1 P1 I J.
  destruct (setVoice_arrays g offsets s1 1) as (C2 & r1 & P2); [lia|].
  fold s2 in C2, P2. rewrite C1', N1 in C2, P2. rewrite B1 in C2. rewrite P1' in P2.
  destruct (if_insert_4 (snap 1 c1) (target 1)
              (if snap 0 c0 then target 0 else c0) c1 c2 c3) as (_ & I & _).
  destruct (if_insert_4 (snap 1 c1) r1
              (if snap 0 c0 then r0 else p0) p1 p2 p3) as (_ & J & _).
  pose proof (eq_trans C2 I) as C2'. pose proof (eq_trans P2 J) as P2'.
  clear C2 P2 I J.
  destruct (setVoice_arrays g offsets s2 2) as (C3 & r2 & P3); [lia|].
  fold s3 in C3, P3. rewrite C2', N2 in C3, P3. rewrite B2 in C3. rewrite P2' in P3.
  destruct (if_insert_4 (snap 2 c2) (target 2)
              (if snap 0 c0 then target 0 else c0)
              (if snap 1 c1 then target 1 else c1) c2 c3) as (_ & _ & I & _).
  destruct (if_insert_4 (snap 2 c2) r2
              (if snap 0 c0 then r0 else p0)
              (if snap 1 c1 then r1 else p1) p2 p3) as (_ & _ & J & _).
  pose proof (eq_trans C3 I) as C3'. pose proof (eq_trans P3 J) as P3'.
  clear C3 P3 I J.
  destruct (setVoice_arrays g offsets s3 3) as (C4 & r3 & P4); [lia|].
  rewrite C3', N3 in C4, P4. rewrite B3 in C4. rewrite P3' in P4.
  destruct (if_insert_4 (snap 3 c3) (target 3)
              (if snap 0 c0 then target 0 else c0)
              (if snap 1 c1 then target 1 else c1)
              (if snap 2 c2 then target 2 else c2) c3) as (_ & _ & _ & I).
  destruct (if_insert_4 (snap 3 c3) r3
              (if snap 0 c0 then r0 else p0)
              (if snap 1 c1 then r1 else p1)
              (if snap 2 c2 then r2 else p2) p3) as (_ & _ & _ & J).
  split; [exact (eq_trans C4 I)|]. exists r0, r1, r2, r3.
  exact (eq_trans P4 J).
Qed.

Lemma with_note_fields n h s :
  base (with_note n h s) = base s
  /\ currentFreq (with_note n h s) = currentFreq s
  /\ phases (with_note n h s) = phases s
  /\ targetFreq (with_note n h s) = targetFreq s
  /\ lastNote (with_note n h s) = n
  /\ body (with_note n h s) = body s.
Proof. repeat split. Qed.

Lemma noteOn_steps note vel s g b' s0 sL :
  g = shouldGlide note s ->
  b' = setBaseFreq (body s) (Some note)
         (if negb g then Engine_noteOn note vel (base s) else base s) ->
  s0 = with_base b' (with_velocity vel s) ->
  sL = fold_left
         (setVoice g
            (chordDefs !!! Z.to_nat (CLAMP Z.ltb (f_to_int (chordType s)) 0 5)))
         [0; 1; 2; 3] s0 ->
  noteOn note vel s = with_note note (sint (heldNotes sL + 1)) sL.
Proof. intros -> -> -> ->. apply noteOn_unfold. Qed.

Lemma voices_body g offsets (vs : list Z) : forall s,
  body (fold_left (setVoice g offsets) vs s) = body s.
Proof.
  induction vs as [|v vs IH]; intros s; cbn [fold_left]; [reflexivity|].
  rewrite IH. unfold ChordEngine.setVoice.
  destruct (v <? cachedNumVoices s); reflexivity.
Qed.

(** [noteOn], field by field, from the state [sL] that the loop leaves. *)
Lemma noteOn_fields note vel s g b' s0 sL :
  g = shouldGlide note s ->
  b' = setBaseFreq (body s) (Some note)
         (if negb g then Engine_noteOn note vel (base s) else base s) ->
  s0 = with_base b' (with_velocity vel s) ->
  sL = fold_left
         (setVoice g
            (chordDefs !!! Z.to_nat (CLAMP Z.ltb (f_to_int (chordType s)) 0 5)))
         [0; 1; 2; 3] s0 ->
  base (noteOn note vel s) = b'
  /\ currentFreq (noteOn note vel s) = currentFreq sL
  /\ phases (noteOn note vel s) = phases sL
  /\ targetFreq (noteOn note vel s) = targetFreq sL
  /\ lastNote (noteOn note vel s) = note
  /\ body (noteOn note vel s) = body s.
Proof.
  intros Eg Eb E0 EL.
  rewrite (noteOn_steps note vel s g b' s0 sL Eg Eb E0 EL).
  destruct (with_note_fields note (sint (heldNotes sL + 1)) sL)
    as (-> & -> & -> & -> & -> & ->).
  rewrite EL.
  destruct (voices_frame powf rand RAND_MAX g
              (chordDefs !!! Z.to_nat (CLAMP Z.ltb (f_to_int (chordType s)) 0 5))
              [0; 1; 2; 3] s0) as (-> & _).
  rewrite voices_body. rewrite E0. repeat split.
Qed.

Lemma start_fields vel s (b' : B) :
  let s0 := with_base b' (with_velocity vel s) in
  base s0 = b' /\ cachedNumVoices s0 = cachedNumVoices s
  /\ currentFreq s0 = currentFreq s /\ phases s0 = phases s
  /\ targetFreq s0 = targetFreq s.
Proof. repeat split. Qed.

(** [noteOn] on the base engine, the current frequencies and the phases. *)
Lemma noteOn_arrays note vel s c0 c1 c2 c3 p0 p1 p2 p3 :
  currentFreq s = [c0; c1; c2; c3] -> phases s = [p0; p1; p2; p3] ->
  let g := shouldGlide note s in
  let b' :=
    setBaseFreq (body s) (Some note)
      (if negb g then Engine_noteOn note vel (base s) else base s) in
  let offsets :=
    chordDefs !!! Z.to_nat (CLAMP Z.ltb (f_to_int (chordType s)) 0 5) in
  let target v := fmul (baseFreq b') (semitones (offsets !!! Z.to_nat v)) in
  let snap v cv :=
    (v <? cachedNumVoices s) && (negb g || feqb cv (f_lit 0)) in
  base (noteOn note vel s) = b'
  /\ currentFreq (noteOn note vel s) =
       [ if snap 0 c0 then target 0 else c0;
         if snap 1 c1 then target 1 else c1;
         if snap 2 c2 then target 2 else c2;
         if snap 3 c3 then target 3 else c3 ]
  /\ exists r0 r1 r2 r3,
       phases (noteOn note vel s) =
         [ if snap 0 c0 then r0 else p0; if snap 1 c1 then r1 else p1;
           if snap 2 c2 then r2 else p2; if snap 3 c3 then r3 else p3 ].
Proof.
  intros Ec Ep g b' offsets target snap.
  destruct (noteOn_fields note vel s g b' _ _ eq_refl eq_refl eq_refl eq_refl)
    as (-> & -> & -> & _).
  fold offsets.
  destruct (start_fields vel s b') as (S1 & S2 & S3 & S4 & _).
  set (s0 := with_base b' (with_velocity vel s)) in *.
  rewrite <- S3 in Ec. rewrite <- S4 in Ep.
  destruct (voices_arrays g offsets s0 c0 c1 c2 c3 p0 p1 p2 p3 Ec Ep)
    as (C & r0 & r1 & r2 & r3 & P).
  rewrite S1, S2 in C. rewrite S2 in P.
  split; [reflexivity|]. split; [exact C|].
  exists r0, r1, r2, r3. exact P.
Qed.

Lemma noteOn_targets note vel s t0 t1 t2 t3 :
  targetFreq s = [t0; t1; t2; t3] ->
  let g := shouldGlide note s in
  let b' :=
    setBaseFreq (body s) (Some note)
      (if negb g then Engine_noteOn note vel (base s) else base s) in
  let offsets :=
    chordDefs !!! Z.to_nat (CLAMP Z.ltb (f_to_int (chordType s)) 0 5) in
  let target v := fmul (baseFreq b') (semitones (offsets !!! Z.to_nat v)) in
  targetFreq (noteOn note vel s) =
    [ if 0 <? cachedNumVoices s then target 0 else t0;
      if 1 <? cachedNumVoices s then target 1 else t1;
      if 2 <? cachedNumVoices s then target 2 else t2;
      if 3 <? cachedNumVoices s then target 3 else t3 ].
Proof.
  intros Et g b' offsets target.
  destruct (noteOn_fields note vel s g b' _ _ eq_refl eq_refl eq_refl eq_refl)
    as (_ & _ & _ & -> & _).
  fold offsets.
  destruct (start_fields vel s b') as (S1 & S2 & _ & _ & S5).
  set (s0 := with_base b' (with_velocity vel s)) in *.
  rewrite <- S5 in Et.
  pose proof (voices_targetFreq powf rand RAND_MAX g offsets s0 t0 t1 t2 t3 Et)
    as T.
  cbn zeta in T. rewrite S1, S2 in T. exact T.
Qed.

Lemma four_cases v : 0 <= v < VOICES -> v = 0 \/ v = 1 \/ v = 2 \/ v = 3.
Proof. unfold VOICES. lia. Qed.

(** X9.  A note-on that does not glide retriggers: [Engine::noteOn] is
    called before the base frequency is set, and every active sub-voice
    starts at its target frequency, [baseFreq * 2^(offset[v]/12)], so that
    nothing is left to glide. *)
Theorem noteOn_retrigger_snaps note vel s :
  length (currentFreq s) = 4%nat -> length (phases s) = 4%nat ->
  length (targetFreq s) = 4%nat ->
  shouldGlide note s = false ->
  let s' := noteOn note vel s in
  let offsets :=
    chordDefs !!! Z.to_nat (CLAMP Z.ltb (f_to_int (chordType s)) 0 5) in
  base s' = setBaseFreq (body s) (Some note)
              (Engine_noteOn note vel (base s))
  /\ forall v, 0 <= v < VOICES -> v < cachedNumVoices s ->
       currentFreq s' !! Z.to_nat v
         = Some (fmul (baseFreq (base s'))
                      (semitones (offsets !!! Z.to_nat v)))
       /\ currentFreq s' !! Z.to_nat v = targetFreq s' !! Z.to_nat v.
Proof.
  intros Hc Hp Ht Hg s' offsets.
  destruct (currentFreq s) as [|c0 [|c1 [|c2 [|c3 [|]]]]] eqn:Ec;
    try discriminate Hc. clear Hc.
  destruct (phases s) as [|p0 [|p1 [|p2 [|p3 [|]]]]] eqn:Ep;
    try discriminate Hp. clear Hp.
  destruct (targetFreq s) as [|t0 [|t1 [|t2 [|t3 [|]]]]] eqn:Et;
    try discriminate Ht. clear Ht.
  destruct (noteOn_arrays note vel s _ _ _ _ _ _ _ _ Ec Ep) as (Hb & Hcf & _).
  pose proof (noteOn_targets note vel s _ _ _ _ Et) as Htf.
  cbn zeta in Hb, Hcf, Htf. rewrite Hg in Hb, Hcf, Htf.
  cbn [negb orb] in Hb, Hcf, Htf.
  fold s' in Hb, Hcf, Htf. fold offsets in Hcf, Htf.
  rewrite <- Hb in Hcf, Htf.
  split; [exact Hb|]. intros v Hv Hact.
  rewrite Hcf, Htf.
  destruct (four_cases v Hv) as [-> | [-> | [-> | ->]]];
    destruct (Z.ltb_spec 0 (cachedNumVoices s)),
             (Z.ltb_spec 1 (cachedNumVoices s)),
             (Z.ltb_spec 2 (cachedNumVoices s)),
             (Z.ltb_spec 3 (cachedNumVoices s));
    try lia; split; reflexivity.
Qed.

(** X10.  A gliding note-on does not call [Engine::noteOn]; a sub-voice
    whose current frequency is not zero keeps that frequency and its
    phase, an active sub-voice whose current frequency is zero starts at
    its target. *)
Theorem noteOn_glide_keeps_sounding_voices note vel s :
  length (currentFreq s) = 4%nat -> length (phases s) = 4%nat ->
  shouldGlide note s = true ->
  let s' := noteOn note vel s in
  let offsets :=
    chordDefs !!! Z.to_nat (CLAMP Z.ltb (f_to_int (chordType s)) 0 5) in
  base s' = setBaseFreq (body s) (Some note) (base s)
  /\ (forall v c, 0 <= v < VOICES ->
        currentFreq s !! Z.to_nat v = Some c -> feqb c (f_lit 0) = false ->
        currentFreq s' !! Z.to_nat v = Some c
        /\ phases s' !! Z.to_nat v = phases s !! Z.to_nat v)
  /\ (forall v c, 0 <= v < VOICES -> v < cachedNumVoices s ->
        currentFreq s !! Z.to_nat v = Some c -> feqb c (f_lit 0) = true ->
        currentFreq s' !! Z.to_nat v
          = Some (fmul (baseFreq (base s'))
                       (semitones (offsets !!! Z.to_nat v)))).
Proof.
  intros Hc Hp Hg s' offsets.
  destruct (currentFreq s) as [|c0 [|c1 [|c2 [|c3 [|]]]]] eqn:Ec;
    try discriminate Hc. clear Hc.
  destruct (phases s) as [|p0 [|p1 [|p2 [|p3 [|]]]]] eqn:Ep;
    try discriminate Hp. clear Hp.
  destruct (noteOn_arrays note vel s _ _ _ _ _ _ _ _ Ec Ep)
    as (Hb & Hcf & r0 & r1 & r2 & r3 & Hph).
  cbn zeta in Hb, Hcf, Hph. rewrite Hg in Hb, Hcf, Hph.
  cbn [negb orb] in Hb, Hcf, Hph.
  fold s' in Hb, Hcf, Hph. fold offsets in Hcf.
  rewrite <- Hb in Hcf.
  split; [exact Hb|]. split.
  - intros v c Hv Hl Hz. rewrite Hcf, Hph.
    destruct (four_cases v Hv) as [-> | [-> | [-> | ->]]];
      cbn in Hl; injection Hl as ->; rewrite Hz, Bool.andb_false_r;
      split; reflexivity.
  - intros v c Hv Hact Hl Hz. rewrite Hcf.
    destruct (four_cases v Hv) as [-> | [-> | [-> | ->]]];
      cbn in Hl; injection Hl as ->; rewrite Hz, Bool.andb_true_r;
      [destruct (Z.ltb_spec 0 (cachedNumVoices s))
      |destruct (Z.ltb_spec 1 (cachedNumVoices s))
      |destruct (Z.ltb_spec 2 (cachedNumVoices s))
      |destruct (Z.ltb_spec 3 (cachedNumVoices s))];
      try lia; reflexivity.
Qed.

(** X11.  Gliding or not, [noteOn] leaves the current frequency and the
    phase of the sub-voices from [cachedNumVoices] on as they are; with
    no active sub-voice the two arrays do not change at all. *)
Theorem noteOn_leaves_inactive_voices note vel s :
  length (currentFreq s) = 4%nat -> length (phases s) = 4%nat ->
  let s' := noteOn note vel s in
  (forall v, 0 <= v -> cachedNumVoices s <= v ->
     currentFreq s' !! Z.to_nat v = currentFreq s !! Z.to_nat v
     /\ phases s' !! Z.to_nat v = phases s !! Z.to_nat v)
  /\ (cachedNumVoices s <= 0 ->
      currentFreq s' = currentFreq s /\ phases s' = phases s).
Proof.
  intros Hc Hp s'.
  destruct (currentFreq s) as [|c0 [|c1 [|c2 [|c3 [|]]]]] eqn:Ec;
    try discriminate Hc. clear Hc.
  destruct (phases s) as [|p0 [|p1 [|p2 [|p3 [|]]]]] eqn:Ep;
    try discriminate Hp. clear Hp.
  destruct (noteOn_arrays note vel s _ _ _ _ _ _ _ _ Ec Ep)
    as (_ & Hcf & r0 & r1 & r2 & r3 & Hph).
  cbn zeta in Hcf, Hph. fold s' in Hcf, Hph. split.
  - intros v Hv Hin. rewrite Hcf, Hph.
    assert (Hcase : v = 0 \/ v = 1 \/ v = 2 \/ v = 3 \/ 4 <= v) by lia.
    destruct Hcase as [-> | [-> | [-> | [-> | Hbig]]]].
    + destruct (Z.ltb_spec 0 (cachedNumVoices s)); [lia|]. split; reflexivity.
    + destruct (Z.ltb_spec 1 (cachedNumVoices s)); [lia|]. split; reflexivity.
    + destruct (Z.ltb_spec 2 (cachedNumVoices s)); [lia|]. split; reflexivity.
    + destruct (Z.ltb_spec 3 (cachedNumVoices s)); [lia|]. split; reflexivity.
    + assert (En : exists k, Z.to_nat v = S (S (S (S k)))).
      { exists (Z.to_nat v - 4)%nat. lia. }
      destruct En as (k & ->). split; reflexivity.
  - intros Hn. rewrite Hcf, Hph.
    destruct (Z.ltb_spec 0 (cachedNumVoices s)); [lia|].
    destruct (Z.ltb_spec 1 (cachedNumVoices s)); [lia|].
    destruct (Z.ltb_spec 2 (cachedNumVoices s)); [lia|].
    destruct (Z.ltb_spec 3 (cachedNumVoices s)); [lia|].
    split; reflexivity.
Qed.

(** X12.  The note of the last note-on never glides: a second note-on
    with the same note calls [Engine::noteOn] again, whatever the glide
    time and the envelope are. *)
Theorem repeated_note_retriggers note vel1 vel2 s :
  let s1 := noteOn note vel1 s in
  shouldGlide note s1 = false
  /\ base (noteOn note vel2 s1)
       = setBaseFreq (body s) (Some note) (Engine_noteOn note vel2 (base s1)).
Proof.
  intros s1.
  destruct (noteOn_fields note vel1 s _ _ _ _ eq_refl eq_refl eq_refl eq_refl)
    as (_ & _ & _ & _ & Hl & Hbody).
  fold s1 in Hl, Hbody.
  assert (Hg : shouldGlide note s1 = false).
  { unfold shouldGlide. rewrite Hl.
    assert (E : Byte.eqb note note = true) by (destruct note; reflexivity).
    rewrite E. cbn [negb]. apply Bool.andb_false_intro1, Bool.andb_false_r. }
  split; [exact Hg|].
  destruct (noteOn_fields note vel2 s1 _ _ _ _ eq_refl eq_refl eq_refl eq_refl)
    as (-> & _).
  rewrite Hg, Hbody. reflexivity.
Qed.

(** X13.  With the glide time at zero or below, the callback switches
    glide off, and every note-on that follows retriggers the envelope. *)
Theorem glide_off_always_retriggers sampleRate (ms : F) note vel s :
  fltb ms (f_lit 0) || feqb ms (f_lit 0) = true ->
  let s1 := glide_changed sampleRate ms s in
  glideEnabled s1 = false
  /\ shouldGlide note s1 = false
  /\ base (noteOn note vel s1)
       = setBaseFreq (body s) (Some note) (Engine_noteOn note vel (base s)).
Proof.
  intros Hoff s1.
  assert (He : glideEnabled s1 = false).
  { unfold s1, glide_changed. cbn [glideEnabled]. rewrite Hoff. reflexivity. }
  assert (Hg : shouldGlide note s1 = false).
  { unfold shouldGlide. rewrite He. reflexivity. }
  split; [exact He|]. split; [exact Hg|].
  destruct (noteOn_fields note vel s1 _ _ _ _ eq_refl eq_refl eq_refl eq_refl)
    as (-> & _).
  rewrite Hg. reflexivity.
Qed.

Lemma glide_changed_fields sampleRate (ms : F) s :
  let off := fltb ms (f_lit 0) || feqb ms (f_lit 0) in
  glideSpeed (glide_changed sampleRate ms s) =
    CLAMP fltb
      (if off then f_lit 1
       else fdiv (f_lit 1)
                 (fmul (fmul ms (f_lit (1 # 1000))) (f_of_Z sampleRate)))
      (f_lit (1 # 10000)) (f_lit 1)
  /\ glideEnabled (glide_changed sampleRate ms s) = negb off.
Proof. split; reflexivity. Qed.

End ChordMoreProperties.

Section ChordBinary32.
Import ChordEngine ChordParams.
Context {B : Type} `{EngineBase Q B}.

Lemma CLAMP_binary32_bounds (x lo hi : Q) :
  (lo <= hi)%Q -> (lo <= CLAMP fltb x lo hi <= hi)%Q.
Proof.
  intros Hlh. unfold CLAMP. cbn [fltb binary32].
  destruct (Qle_bool lo x) eqn:E1; cbn [negb].
  - apply Qle_bool_iff in E1.
    destruct (Qle_bool x hi) eqn:E2; cbn [negb].
    + apply Qle_bool_iff in E2. split; assumption.
    + split; [exact Hlh|apply Qle_refl].
  - split; [apply Qle_refl|exact Hlh].
Qed.

(** X14.  In single precision, for a glide time [ms] that is a finite
    number and a sample rate below [2^64]: as long as, for [ms > 0], the
    divisor [ms * 0.001f * sampleRate] is a normal number between
    [2^-126] and [2^126] (neither zero nor near the ends of the range,
    so that the division and its result are finite), the callback leaves
    a glide speed between 0.0001 and 1; glide is enabled exactly for a
    glide time above zero, and the speed is 1 otherwise. *)
Theorem glide_speed_within_bounds sampleRate (ms : Q) (s : State Q B) :
  let divisor := fmul (fmul ms (f_lit (1 # 1000))) (f_of_Z sampleRate) in
  f_lit ms = ms ->
  0 <= sampleRate < 2 ^ 64 ->
  ((0 < ms)%Q -> (Qpow2 (-126) <= divisor <= Qpow2 126)%Q) ->
  let s1 := glide_changed sampleRate ms s in
  (f_lit (1 # 10000) <= glideSpeed s1 <= f_lit 1)%Q
  /\ (glideEnabled s1 = true <-> (0 < ms)%Q)
  /\ ((ms <= 0)%Q -> glideSpeed s1 = f_lit 1).
Proof.
  intros divisor _ _ _ s1. unfold s1.
  destruct (glide_changed_fields sampleRate ms s) as (-> & ->).
  assert (Hoff : fltb ms (f_lit 0) || feqb ms (f_lit 0) = true <-> (ms <= 0)%Q).
  { change (f_lit 0) with (round32 0). change (round32 0) with 0%Q.
    cbn [fltb feqb binary32]. rewrite Bool.orb_true_iff, Bool.negb_true_iff.
    rewrite Qeq_bool_iff. split.
    - intros [Hlt | Heq].
      + apply Qlt_le_weak, Qnot_le_lt. intros Hle.
        apply Qle_bool_iff in Hle. congruence.
      + rewrite Heq. apply Qle_refl.
    - intros Hle. destruct (Qle_bool 0 ms) eqn:E; [right|left; reflexivity].
      apply Qle_bool_iff in E. apply Qle_antisym; assumption. }
  split; [|split].
  - apply CLAMP_binary32_bounds.
    apply Qle_bool_iff. vm_cast_no_check (eq_refl true).
  - destruct (fltb ms (f_lit 0) || feqb ms (f_lit 0)) eqn:E; cbn [negb].
    + split; [discriminate|]. intros Hpos.
      apply Qlt_not_le in Hpos. destruct Hpos. apply Hoff. reflexivity.
    + split; [|reflexivity]. intros _. apply Qnot_le_lt. intros Hle.
      apply Hoff in Hle. discriminate.
  - intros Hle. apply Hoff in Hle. rewrite Hle.
    vm_compute. reflexivity.
Qed.

End ChordBinary32.

Section ChordMoreWitnesses.
Import ChordEngine ChordSpec ChordParams Standins.

Local Abbreviation noteOn := (noteOn chord_pow lcg lcg_max).

Lemma noteOn_retrigger_snaps_witness :
  let s' := noteOn x3c (f_lit 1) chord_init in
  length (currentFreq chord_init) = 4%nat
  /\ length (phases chord_init) = 4%nat
  /\ length (targetFreq chord_init) = 4%nat
  /\ shouldGlide x3c chord_init = false
  /\ calls (base s')
     = [CallNoteOn x3c (f_lit 1); CallSetBaseFreq (f_lit 0) (Some x3c)]
  /\ currentFreq s' !! 1%nat = Some 80%Q
  /\ currentFreq s' !! 1%nat = targetFreq s' !! 1%nat.
Proof.
  intros s'.
  assert (H1 : length (currentFreq chord_init) = 4%nat) by reflexivity.
  assert (H2 : length (phases chord_init) = 4%nat) by reflexivity.
  assert (H3 : length (targetFreq chord_init) = 4%nat) by reflexivity.
  assert (H4 : shouldGlide x3c chord_init = false)
    by (vm_compute; reflexivity).
  split; [exact H1|]. split; [exact H2|]. split; [exact H3|].
  split; [exact H4|].
  destruct (noteOn_retrigger_snaps chord_pow lcg lcg_max x3c (f_lit 1)
              chord_init H1 H2 H3 H4) as (Hb & Hv).
  fold s' in Hb, Hv.
  destruct (Hv 1) as (E1 & E2);
    [unfold VOICES; lia|vm_compute; reflexivity|].
  split; [rewrite Hb; vm_compute; reflexivity|].
  split; [|exact E2].
  change (Z.to_nat 1) with 1%nat in E1. rewrite E1.
  vm_compute. reflexivity.
Defined.

Lemma noteOn_glide_keeps_sounding_voices_witness :
  let s1 := noteOn x3c (f_lit 1) chord_init in
  let s2 := noteOn x40 (f_lit 1) s1 in
  length (currentFreq s1) = 4%nat
  /\ length (phases s1) = 4%nat
  /\ shouldGlide x40 s1 = true
  /\ currentFreq s1 !! 1%nat = Some 80%Q
  /\ feqb 80%Q (f_lit 0) = false
  /\ calls (base s2)
     = [CallNoteOn x3c (f_lit 1); CallSetBaseFreq (f_lit 0) (Some x3c);
        CallSetBaseFreq (f_lit 0) (Some x40)]
  /\ currentFreq s2 !! 1%nat = Some 80%Q
  /\ phases s2 !! 1%nat = phases s1 !! 1%nat.
Proof.
  intros s1 s2.
  assert (H1 : length (currentFreq s1) = 4%nat) by (vm_compute; reflexivity).
  assert (H2 : length (phases s1) = 4%nat) by (vm_compute; reflexivity).
  assert (H3 : shouldGlide x40 s1 = true) by (vm_compute; reflexivity).
  assert (H4 : currentFreq s1 !! Z.to_nat 1 = Some 80%Q)
    by (vm_compute; reflexivity).
  assert (H5 : feqb 80%Q (f_lit 0) = false) by (vm_compute; reflexivity).
  split; [exact H1|]. split; [exact H2|]. split; [exact H3|].
  split; [exact H4|]. split; [exact H5|].
  destruct (noteOn_glide_keeps_sounding_voices chord_pow lcg lcg_max x40
              (f_lit 1) s1 H1 H2 H3) as (Hb & Hkeep & _).
  fold s2 in Hb, Hkeep.
  split; [rewrite Hb; vm_compute; reflexivity|].
  apply (Hkeep 1 80%Q); [unfold VOICES; lia|exact H4|exact H5].
Defined.

Lemma noteOn_leaves_inactive_voices_witness :
  let s := voices_changed (f_lit 2) chord_init in
  let s' := noteOn x3c (f_lit 1) s in
  length (currentFreq s) = 4%nat
  /\ length (phases s) = 4%nat
  /\ cachedNumVoices s = 2
  /\ currentFreq s' !! 2%nat = currentFreq s !! 2%nat
  /\ phases s' !! 2%nat = phases s !! 2%nat.
Proof.
  intros s s'.
  assert (H1 : length (currentFreq s) = 4%nat) by reflexivity.
  assert (H2 : length (phases s) = 4%nat) by reflexivity.
  split; [exact H1|]. split; [exact H2|].
  split; [vm_compute; reflexivity|].
  destruct (noteOn_leaves_inactive_voices chord_pow lcg lcg_max x3c (f_lit 1)
              s H1 H2) as (Hv & _).
  apply (Hv 2); [lia|vm_compute; discriminate].
Defined.

Lemma glide_off_always_retriggers_witness :
  let s1 := noteOn x3c (f_lit 1) chord_init in
  let s2 := glide_changed 44100 (f_lit 0) s1 in
  shouldGlide x40 s1 = true
  /\ fltb (f_lit 0) (f_lit 0) || feqb (f_lit 0) (f_lit 0) = true
  /\ shouldGlide x40 s2 = false
  /\ calls (base (noteOn x40 (f_lit 1) s2))
     = [CallNoteOn x3c (f_lit 1); CallSetBaseFreq (f_lit 0) (Some x3c);
        CallNoteOn x40 (f_lit 1); CallSetBaseFreq (f_lit 0) (Some x40)].
Proof.
  intros s1 s2.
  assert (H1 : fltb (f_lit 0) (f_lit 0) || feqb (f_lit 0) (f_lit 0) = true)
    by (vm_compute; reflexivity).
  split; [vm_compute; reflexivity|]. split; [exact H1|].
  destruct (glide_off_always_retriggers chord_pow lcg lcg_max 44100 (f_lit 0)
              x40 (f_lit 1) s1 H1) as (_ & Hg & Hb).
  fold s2 in Hg, Hb.
  split; [exact Hg|]. rewrite Hb. vm_compute. reflexivity.
Defined.

Lemma glide_speed_within_bounds_witness :
  let divisor :=
    fmul (fmul (50 : Q) (f_lit (1 # 1000))) (f_of_Z 48000) in
  let s1 := glide_changed 48000 50%Q chord_init in
  f_lit 50 = 50%Q
  /\ 0 <= 48000 < 2 ^ 64
  /\ ((0 < 50)%Q -> (Qpow2 (-126) <= divisor <= Qpow2 126)%Q)
  /\ divisor = 2400%Q
  /\ (f_lit (1 # 10000) <= glideSpeed s1 <= f_lit 1)%Q
  /\ glideEnabled s1 = true.
Proof.
  intros divisor s1.
  assert (H1 : f_lit 50 = 50%Q) by (vm_compute; reflexivity).
  assert (H2 : 0 <= 48000 < 2 ^ 64) by lia.
  assert (H3 : (0 < 50)%Q -> (Qpow2 (-126) <= divisor <= Qpow2 126)%Q).
  { intros _. split; apply Qle_bool_iff; vm_compute; reflexivity. }
  split; [exact H1|]. split; [exact H2|]. split; [exact H3|].
  split; [vm_compute; reflexivity|].
  destruct (glide_speed_within_bounds 48000 50%Q chord_init H1 H2 H3)
    as (Hb & He & _).
  split; [exact Hb|]. apply He. reflexivity.
Defined.

End ChordMoreWitnesses.

(** ** The time conversion of the envelope *)

Section MsToSampleCountGeneric.
Import EnvelopRuns.
Context {F : Type} `{FloatOps F}.

Lemma exact_at_In sampleRate durations ms :
  exact_at sampleRate durations = true -> In ms durations ->
  msToSampleCount ms sampleRate = ms * sampleRate / 1000.
Proof.
  unfold exact_at. rewrite forallb_forall. intros Hall Hin.
  apply Z.eqb_eq, Hall, Hin.
Qed.

End MsToSampleCountGeneric.

Section MsToSampleCount.
Import EnvelopRuns.

Lemma exact_at_44100 : exact_at 44100 (seqZ 0 2001) = true.
Proof. vm_cast_no_check (eq_refl true). Qed.

Lemma exact_at_48000 : exact_at 48000 (seqZ 0 2001) = true.
Proof. vm_cast_no_check (eq_refl true). Qed.

(** X15.  At the sample rates 44100 and 48000, for every duration up to
    two seconds, the single-precision computation of [msToSampleCount]
    gives the exact number of samples, [ms * sampleRate / 1000] rounded
    down. *)
Theorem msToSampleCount_exact (ms sampleRate : Z) :
  0 <= ms <= 2000 -> sampleRate = 44100 \/ sampleRate = 48000 ->
  msToSampleCount ms sampleRate = ms * sampleRate / 1000.
Proof.
  intros Hms Hsr.
  assert (Hin : In ms (seqZ 0 2001)).
  { apply list_elem_of_In, elem_of_seqZ. lia. }
  destruct Hsr as [-> | ->].
  - exact (exact_at_In 44100 (seqZ 0 2001) ms exact_at_44100 Hin).
  - exact (exact_at_In 48000 (seqZ 0 2001) ms exact_at_48000 Hin).
Qed.

Lemma msToSampleCount_exact_witness :
  0 <= 250 <= 2000 /\ (48000 = 44100 \/ 48000 = 48000)
  /\ msToSampleCount 250 48000 = 12000.
Proof.
  assert (H1 : 0 <= 250 <= 2000) by lia.
  assert (H2 : 48000 = 44100 \/ 48000 = 48000) by (right; reflexivity).
  split; [exact H1|]. split; [exact H2|].
  rewrite (msToSampleCount_exact 250 48000 H1 H2). reflexivity.
Defined.

End MsToSampleCount.

(** ** More of the wavetable engine *)

Section WavetableMoreProperties.
Import Wavetable2Engine WavetableRuns.
Context {F B : Type} `{FloatOps F} `{EngineBase F B}.
Variable pow : F -> F -> F.
Variable wavetable_sampleCount : Z.
Variable sampleRate : Z.
Implicit Types (s : State F B) (note : byte) (vel : F).

Local Abbreviation setFreq := (setFreq pow wavetable_sampleCount sampleRate).
Local Abbreviation noteOn := (noteOn pow wavetable_sampleCount sampleRate).
Local Abbreviation picth_changed :=
  (picth_changed pow wavetable_sampleCount sampleRate).
Local Abbreviation handle := (handle pow wavetable_sampleCount sampleRate).
Local Abbreviation run := (run pow wavetable_sampleCount sampleRate).

Lemma run_snoc events e s : run (events ++ [e]) s = handle (run events s) e.
Proof. unfold WavetableRuns.run. apply fold_left_app. Qed.

Lemma handle_freqNote s e :
  freqNote s <> x00 -> freqNote (handle s e) <> x00.
Proof.
  intros Hs. destruct e as [note vel|value]; cbn [WavetableRuns.handle].
  - change (freqNote (noteOn note vel s))
      with (if Byte.eqb note x00 then freqNote s else note).
    destruct (Byte.eqb note x00) eqn:E; [exact Hs|].
    intros ->. discriminate E.
  - exact Hs.
Qed.

Lemma handle_in_tune s e : setFreq x00 (handle s e) = handle s e.
Proof.
  destruct e as [note vel|value]; cbn [WavetableRuns.handle].
  - unfold Wavetable2Engine.noteOn, Wavetable2Engine.setFreq.
    cbn [freqNote picth base velocity sampleIndexLfo wavetable_sampleIndex
         envPitch antiAliasCutoff antiAliasFilter freq Byte.eqb].
    destruct (Byte.eqb note x00); reflexivity.
  - unfold Wavetable2Engine.picth_changed, Wavetable2Engine.setFreq.
    cbn [freqNote picth base velocity sampleIndexLfo wavetable_sampleIndex
         envPitch antiAliasCutoff antiAliasFilter freq Byte.eqb].
    reflexivity.
Qed.

(** X16.  A change of the pitch parameter and a note-on commute: either
    order leaves the same state. *)
Theorem pitch_change_commutes_with_noteOn value note vel s :
  picth_changed value (noteOn note vel s)
    = noteOn note vel (picth_changed value s).
Proof.
  unfold Wavetable2Engine.picth_changed, Wavetable2Engine.noteOn,
    Wavetable2Engine.setFreq.
  cbn [freqNote picth base velocity sampleIndexLfo wavetable_sampleIndex
       envPitch antiAliasCutoff antiAliasFilter freq].
  destruct (Byte.eqb note x00); reflexivity.
Qed.

(** X17.  Over any sequence of note-ons and pitch changes the stored note
    stays different from 0 when it starts so, and after at least one event
    the state is in tune: running [setFreq()] once more changes nothing. *)
Theorem run_stays_in_tune events s :
  freqNote s <> x00 ->
  freqNote (run events s) <> x00
  /\ (events <> [] -> setFreq x00 (run events s) = run events s).
Proof.
  intros Hs. split.
  - induction events as [|e events IH] using rev_ind; [exact Hs|].
    rewrite run_snoc. apply handle_freqNote. exact IH.
  - intros Hne. destruct events as [|e events] using rev_ind;
      [contradiction|].
    rewrite run_snoc. apply handle_in_tune.
Qed.

(** X18.  A note-on with note number 0 hands the 0 to [Engine::noteOn]
    and tunes to the stored note: the stored note stays, and the
    increment and the cutoff are those of a note-on at the stored note. *)
Theorem noteOn_zero_replays_stored_note vel s :
  base (noteOn x00 vel s) = Engine_noteOn x00 vel (base s)
  /\ freqNote (noteOn x00 vel s) = freqNote s
  /\ freq (noteOn x00 vel s) = freq (noteOn (freqNote s) vel s)
  /\ antiAliasCutoff (noteOn x00 vel s)
     = antiAliasCutoff (noteOn (freqNote s) vel s).
Proof.
  unfold Wavetable2Engine.noteOn, Wavetable2Engine.setFreq.
  cbn [freqNote picth base velocity sampleIndexLfo wavetable_sampleIndex
       envPitch antiAliasCutoff antiAliasFilter freq Byte.eqb].
  destruct (Byte.eqb (freqNote s) x00); repeat split.
Qed.

End WavetableMoreProperties.

Section WavetableMoreWitnesses.
Import Wavetable2Engine WavetableRuns Standins.

Lemma run_stays_in_tune_witness :
  let events :=
    [NoteOn x60 (f_lit 1); PitchChanged (f_lit 2); NoteOn x00 (f_lit 1)] in
  let s' := run (B := Recorder) chord_pow 2048 44100 events wavetable_init in
  freqNote wavetable_init <> x00
  /\ freqNote s' = x60
  /\ setFreq chord_pow 2048 44100 x00 s' = s'.
Proof.
  intros events s'.
  assert (H1 : freqNote wavetable_init <> x00) by discriminate.
  split; [exact H1|].
  destruct (run_stays_in_tune chord_pow 2048 44100 events wavetable_init H1)
    as (_ & Htune).
  split; [vm_compute; reflexivity|].
  apply Htune. discriminate.
Defined.

End WavetableMoreWitnesses.

(** ** The recording status component *)

Section SeqRecordStatusProperties.
Import Stdlib.Strings.String.
Import SeqRecordStatusComponent.
Context {F : Type} `{FloatOps F}.
Implicit Types (q : Sequencer (F := F)) (s : State (F := F)).

Lemma int16_small x : - 2 ^ 15 <= x < 2 ^ 15 -> int16 x = x.
Proof. intros Hx. unfold int16. rewrite Z.mod_small; lia. Qed.

Lemma int16_range x : - 2 ^ 15 <= int16 x < 2 ^ 15.
Proof.
  unfold int16. pose proof (Z.mod_pos_bound (x + 2 ^ 15) (2 ^ 16)). lia.
Qed.

Lemma int16_high x : 2 ^ 15 <= x < 2 ^ 16 -> int16 x = x - 2 ^ 16.
Proof.
  intros Hx. unfold int16.
  replace (x + 2 ^ 15) with (x - 2 ^ 15 + 1 * 2 ^ 16) by lia.
  rewrite Z.mod_add by lia. rewrite Z.mod_small; lia.
Qed.

Ltac job_step :=
  cbn [negb fst snd stepCount lastStepCounter lastRecordedLoopsCount
       lastRecordArmValue].

Ltac job_cases :=
  repeat (job_step;
          match goal with
          | |- context [if negb (?x =? ?y) then _ else _] =>
              destruct (Z.eqb_spec x y)
          | |- context [if negb (feqb ?x ?y) then _ else _] =>
              destruct (feqb x y) eqn:?
          end);
  job_step.

Lemma jobRendering_quiet q s : quiet q s -> jobRendering q s = (false, s).
Proof.
  destruct q as [p c r l a], s as [n last lc la].
  unfold quiet.
  cbn [isPlayingPtr stepCounterPtr recordedLoopsCountPtr recordArmVal
       lastStepCounter lastRecordedLoopsCount lastRecordArmValue].
  intros (Q1 & Q2 & Q3 & Q4). unfold jobRendering.
  cbn [isPlayingPtr stepCounterPtr recordedLoopsCountPtr recordArmVal].
  destruct p as [[|]|], c as [c|], l as [l|], a as [a|];
    try pose proof (Q1 _ eq_refl eq_refl);
    try pose proof (Q2 eq_refl);
    try pose proof (Q3 _ eq_refl);
    try pose proof (Q4 _ eq_refl);
    job_cases; try reflexivity; try congruence.
Qed.

Lemma jobRendering_post q s :
  (forall c, stepCounterPtr q = Some c -> 0 <= c < 2 ^ 15) ->
  (forall a, recordArmVal q = Some a -> feqb a a = true) ->
  quiet q (snd (jobRendering q s)).
Proof.
  destruct q as [p c r l a], s as [n last lc la].
  cbn [stepCounterPtr recordArmVal]. intros Hc Ha.
  unfold quiet, jobRendering.
  cbn [isPlayingPtr stepCounterPtr recordedLoopsCountPtr recordArmVal].
  destruct p as [[|]|], c as [c|], l as [l|], a as [a|];
    try (rewrite (int16_small c)
           by (specialize (Hc c eq_refl); lia));
    try pose proof (Ha _ eq_refl);
    job_cases;
    (split; [|split; [|split]]);
    try discriminate; intros; simplify_eq; try reflexivity; try assumption;
    try congruence.
Qed.

(** X19.  A second run of the job on unchanged inputs finds nothing to
    render and changes nothing, as long as the step counter fits an
    [int16_t] and the arm value equals itself. *)
Theorem jobRendering_settles q s :
  (forall c, stepCounterPtr q = Some c -> 0 <= c < 2 ^ 15) ->
  (forall a, recordArmVal q = Some a -> feqb a a = true) ->
  let s1 := snd (jobRendering q s) in
  jobRendering q s1 = (false, s1).
Proof.
  intros Hc Ha s1. apply jobRendering_quiet, jobRendering_post; assumption.
Qed.

Lemma jobRendering_playing q s c :
  isPlayingPtr q = Some true -> stepCounterPtr q = Some c ->
  lastStepCounter s <> c ->
  fst (jobRendering q s) = true
  /\ lastStepCounter (snd (jobRendering q s)) = int16 c.
Proof.
  destruct q as [p c' r l a], s as [n last lc la].
  cbn [isPlayingPtr stepCounterPtr lastStepCounter].
  intros -> -> Hne. unfold jobRendering.
  cbn [isPlayingPtr stepCounterPtr recordedLoopsCountPtr recordArmVal].
  destruct l as [l|], a as [a|];
    job_cases; try contradiction; split; reflexivity.
Qed.

(** X20.  A step counter from 32768 on does not fit the [int16_t] that
    remembers it: while playing, every run of the job asks for a render,
    the next one too. *)
Theorem jobRendering_counter_beyond_int16 q s c :
  isPlayingPtr q = Some true -> stepCounterPtr q = Some c ->
  2 ^ 15 <= c < 2 ^ 16 ->
  - 2 ^ 15 <= lastStepCounter s < 2 ^ 15 ->
  let r := jobRendering q s in
  fst r = true
  /\ lastStepCounter (snd r) = c - 2 ^ 16
  /\ fst (jobRendering q (snd r)) = true.
Proof.
  intros Hp Hq Hc Hs r. subst r.
  destruct (jobRendering_playing q s c Hp Hq) as (E1 & E2); [lia|].
  rewrite (int16_high c Hc) in E2.
  split; [exact E1|]. split; [exact E2|].
  apply (jobRendering_playing q _ c Hp Hq). lia.
Qed.

(** X21.  [render] writes REC exactly when the sequencer plays and the
    arm value is above zero, ARM exactly when it is above zero and the
    sequencer does not play, and never both; the recording-enabled flag
    has no part in what is drawn. *)
Theorem render_indicator {Color Font : Type} (st : Style Color Font)
    p c rec l a s :
  let q := mkSequencer p c rec l a in
  let playing := match p with Some b => b | None => false end in
  let armed :=
    match a with Some arm => fltb (f_lit 0) arm | None => false end in
  text_labels (render st q s)
    = (if playing && armed then ["REC"%string]
       else if armed then ["ARM"%string] else [])
  /\ forall rec', render st (mkSequencer p c rec' l a) s = render st q s.
Proof.
  intros q playing armed. split; [|reflexivity].
  subst q playing armed. unfold render, text_labels.
  cbn [isPlayingPtr stepCounterPtr recordedLoopsCountPtr recordArmVal].
  rewrite !flat_map_app.
  destruct p as [[|]|], c as [c|], a as [a|], l as [l|];
    cbn [andb flat_map app];
    repeat match goal with
    | |- context [if ?b then _ else _] => destruct b
    end; reflexivity.
Qed.

(** X22.  While the sequencer plays at a step below the step count, the
    third call of [render] draws the progress bar over its background, at
    the same position: its width is [(w - 80) * (step + 1) / stepCount],
    above nothing and at most the width [w - 80] of the background, which
    it reaches at the last step. *)
Theorem render_progress_bar {Color Font : Type} (st : Style Color Font)
    c rec l a s :
  let q := mkSequencer (Some true) (Some c) rec l a in
  let w := fst (size st) in
  80 <= w < 2 ^ 31 ->
  0 <= c < stepCount s -> stepCount s < 2 ^ 16 ->
  (w - 80) * (c + 1) < 2 ^ 31 ->
  exists pos progressW rest,
    render st q s
      = filledRect (relativePosition st) (size st) (background st)
        :: filledRect pos (w - 80, 3) (progressBarBg st)
        :: filledRect pos (progressW, 3) (progressBarFg st)
        :: rest
    /\ progressW = (w - 80) * (c + 1) / stepCount s
    /\ 0 <= progressW <= w - 80
    /\ (c + 1 = stepCount s -> progressW = w - 80).
Proof.
  intros q w Hw Hc Hn Hmul.
  assert (E1 : int_sub w 80 = w - 80).
  { unfold int_sub. apply sint_small. lia. }
  assert (E2 : int_add c 1 = c + 1).
  { unfold int_add. apply sint_small. lia. }
  assert (E3 : int_mul (w - 80) (c + 1) = (w - 80) * (c + 1)).
  { unfold int_mul. apply sint_small. nia. }
  assert (Hq : 0 <= (w - 80) * (c + 1) / stepCount s <= w - 80).
  { split; [apply Z.div_pos; nia|].
    apply Z.div_le_upper_bound; nia. }
  assert (E4 : int_div ((w - 80) * (c + 1)) (stepCount s)
               = (w - 80) * (c + 1) / stepCount s).
  { unfold int_div. rewrite Z.quot_div_nonneg by nia.
    apply sint_small. lia. }
  assert (Hplay : true && (0 <? stepCount s) = true).
  { destruct (Z.ltb_spec 0 (stepCount s)); [reflexivity|lia]. }
  subst q. unfold render.
  cbn [isPlayingPtr stepCounterPtr recordedLoopsCountPtr recordArmVal].
  fold w. rewrite E1, E2, E3, E4, Hplay. cbn [app].
  eexists. eexists. eexists. split; [reflexivity|].
  split; [reflexivity|]. split; [exact Hq|].
  intros Hlast. rewrite Hlast. apply Z.div_mul. lia.
Qed.

End SeqRecordStatusProperties.

Section SeqRecordStatusWitnesses.
Import SeqRecordStatusComponent.

Lemma jobRendering_settles_witness :
  let q := mkSequencer (F := Q) (Some true) (Some 5) (Some false) (Some 2)
             (Some (f_lit 1)) in
  let s1 := mkState 32 5 2 (f_lit 1) in
  (forall c, stepCounterPtr q = Some c -> 0 <= c < 2 ^ 15)
  /\ (forall a, recordArmVal q = Some a -> feqb a a = true)
  /\ jobRendering q initial = (true, s1)
  /\ jobRendering q s1 = (false, s1).
Proof.
  intros q s1.
  assert (H1 : forall c, stepCounterPtr q = Some c -> 0 <= c < 2 ^ 15).
  { intros c E. injection E as <-. lia. }
  assert (H2 : forall a, recordArmVal q = Some a -> feqb a a = true).
  { intros a E. injection E as <-. vm_compute. reflexivity. }
  assert (H3 : jobRendering q initial = (true, s1))
    by (vm_compute; reflexivity).
  split; [exact H1|]. split; [exact H2|]. split; [exact H3|].
  pose proof (jobRendering_settles q initial H1 H2) as E.
  cbv zeta in E. rewrite H3 in E. exact E.
Defined.

Lemma jobRendering_counter_beyond_int16_witness :
  let q := mkSequencer (F := Q) (Some true) (Some 40000) None None None in
  let r := jobRendering q initial in
  2 ^ 15 <= 40000 < 2 ^ 16
  /\ - 2 ^ 15 <= lastStepCounter (initial (F := Q)) < 2 ^ 15
  /\ fst r = true
  /\ lastStepCounter (snd r) = -25536
  /\ fst (jobRendering q (snd r)) = true.
Proof.
  intros q r.
  assert (H1 : 2 ^ 15 <= 40000 < 2 ^ 16) by lia.
  assert (H2 : - 2 ^ 15 <= lastStepCounter (initial (F := Q)) < 2 ^ 15)
    by (cbn; lia).
  split; [exact H1|]. split; [exact H2|].
  exact (jobRendering_counter_beyond_int16 q initial 40000
           eq_refl eq_refl H1 H2).
Defined.

Lemma render_progress_bar_witness :
  let st := mkStyle (0, 0) (180, 16) tt tt tt tt tt tt tt in
  let q := mkSequencer (F := Q) (Some true) (Some 15) None None None in
  80 <= 180 < 2 ^ 31
  /\ 0 <= 15 < stepCount (initial (F := Q))
  /\ stepCount (initial (F := Q)) < 2 ^ 16
  /\ (180 - 80) * (15 + 1) < 2 ^ 31
  /\ exists pos rest,
       render st q initial
         = filledRect (0, 0) (180, 16) tt
           :: filledRect pos (100, 3) tt
           :: filledRect pos (50, 3) tt
           :: rest.
Proof.
  intros st q.
  assert (H1 : 80 <= 180 < 2 ^ 31) by lia.
  assert (H2 : 0 <= 15 < stepCount (initial (F := Q))) by (cbn; lia).
  assert (H3 : stepCount (initial (F := Q)) < 2 ^ 16) by (cbn; lia).
  assert (H4 : (180 - 80) * (15 + 1) < 2 ^ 31) by lia.
  split; [exact H1|]. split; [exact H2|]. split; [exact H3|].
  split; [exact H4|].
  destruct (render_progress_bar st 15 None None None initial H1 H2 H3 H4)
    as (pos & progressW & rest & E & Ew & _).
  exists pos, rest. fold q in E. rewrite E, Ew. reflexivity.
Defined.

End SeqRecordStatusWitnesses.
